(** * Backend health engine: liveness, readiness and its checks

    A shallow embedding of

    - [src/app/backend/src/health/health.service.ts]
      ([HealthService.liveness], [HealthService.readiness], [withTimeout],
      [mapResult]),
    - [src/app/backend/src/health/env.checks.ts] ([checkEnv]),
    - [src/app/backend/src/supabase/checks/supabase.check.ts]
      ([checkSupabase]),

    followed by the properties of the health specification that are about
    this code.

    Conventions of the embedding.

    - JavaScript values whose TypeScript type is [any] (what a [catch]
      clause binds, the [reason] of a rejected promise, the [error] a probe
      hands back) are terms of [JsValue].
    - [process.env] is a finite map from names to strings.
    - An [async] function is a computation in the [Async] monad: it ends by
      returning, by throwing, or it stays suspended for ever; it also logs
      the outside operations it performs.
    - The event loop is a transition system on the timeout slots of
      [readiness]; its input is the order in which deadlines are reached and
      suspended checks settle. *)

From Stdlib Require Import ZArith Lia Bool.
From stdpp Require Import base option list strings gmap.

Local Open Scope string_scope.

(** ** JavaScript values *)

Module Js.

(** The values a variable of type [any] may hold. Numbers are integers
    here: no claim depends on fractions or on NaN. An object is the list of
    the properties that a property read can see (own and inherited). *)
#[warnings="-register-all"]
Inductive JsValue : Type :=
| JsUndefined
| JsNull
| JsBool (b : bool)
| JsNumber (n : Z)
| JsString (s : string)
| JsObject (props : list (string * JsValue)).

Fixpoint assoc (key : string) (props : list (string * JsValue)) : option JsValue :=
  match props with
  | [] => None
  | (k, v) :: rest => if String.eqb k key then Some v else assoc key rest
  end.

(** [v.key] for a [v] that is neither [null] nor [undefined]. The wrapper
    prototypes of the primitives define no [message] and no [error], the
    only keys read in this program. *)
Definition get (v : JsValue) (key : string) : JsValue :=
  match v with
  | JsObject props => default JsUndefined (assoc key props)
  | _ => JsUndefined
  end.

Definition nullish (v : JsValue) : bool :=
  match v with
  | JsUndefined | JsNull => true
  | _ => false
  end.

(** [v?.key] *)
Definition opt_get (v : JsValue) (key : string) : JsValue :=
  if nullish v then JsUndefined else get v key.

(** [a ?? b] *)
Definition coalesce (a b : JsValue) : JsValue :=
  if nullish a then b else a.

(** Truthiness, as [if (v)] and [!v] test it. *)
Definition truthy (v : JsValue) : bool :=
  match v with
  | JsUndefined | JsNull => false
  | JsBool b => b
  | JsNumber n => negb (n =? 0)%Z
  | JsString s => negb (String.eqb s "")
  | JsObject _ => true
  end.

Definition is_string (v : JsValue) : bool :=
  match v with
  | JsString _ => true
  | _ => false
  end.

(** [new Error(msg)] *)
Definition new_Error (msg : string) : JsValue :=
  JsObject [("message", JsString msg); ("name", JsString "Error")].

Definition new_TypeError (msg : string) : JsValue :=
  JsObject [("message", JsString msg); ("name", JsString "TypeError")].

(** [err?.message ?? fallback], the idiom of every [catch] in this code. *)
Definition message_or (err : JsValue) (fallback : string) : JsValue :=
  coalesce (opt_get err "message") (JsString fallback).

(** Array.prototype.every: stops at the first element that fails. *)
Fixpoint every {A} (p : A -> bool) (xs : list A) : bool :=
  match xs with
  | [] => true
  | x :: rest => if p x then every p rest else false
  end.

(** Array.prototype.join on an array of strings. *)
Fixpoint join (sep : string) (xs : list string) : string :=
  match xs with
  | [] => ""
  | [x] => x
  | x :: rest => x ++ sep ++ join sep rest
  end.

End Js.
Import Js.

(** ** Check results *)

Inductive Status : Type := OK | DEGRADED.

Definition status_eqb (a b : Status) : bool :=
  match a, b with
  | OK, OK | DEGRADED, DEGRADED => true
  | _, _ => false
  end.

(** The object literal every check returns: [name], [status] and, on the
    degraded paths only, [error]. [None] is an object without the [error]
    property. *)
Record CheckResult : Type := mkCheck {
  name : string;
  status : Status;
  error : option JsValue
}.

(** ** Async functions *)

(** What an async function does to the outside while it runs. *)
Inductive Effect : Type :=
| EffCreateClient (url key : string)
| EffQuery
| EffAwait.

Inductive Outcome (A : Type) : Type :=
| Ret (a : A)
| Throw (e : JsValue)
| Hang.
Arguments Ret {A} a.
Arguments Throw {A} e.
Arguments Hang {A}.

Definition Async (A : Type) : Type := list Effect * Outcome A.

Definition ret {A} (a : A) : Async A := ([], Ret a).
Definition throw {A} (e : JsValue) : Async A := ([], Throw e).
Definition perform (eff : Effect) : Async unit := ([eff], Ret tt).

Definition bind {A B} (c : Async A) (k : A -> Async B) : Async B :=
  match c with
  | (log, Ret a) => let '(log', o) := k a in ((log ++ log')%list, o)
  | (log, Throw e) => (log, Throw e)
  | (log, Hang) => (log, Hang)
  end.

(** [try { body } catch (err) { handler }] *)
Definition try_catch {A} (body : Async A) (handler : JsValue -> Async A) : Async A :=
  match body with
  | (log, Throw e) => let '(log', o) := handler e in ((log ++ log')%list, o)
  | done => done
  end.

Notation "'let*' x ':=' c 'in' k" := (bind c (fun x => k))
  (at level 10, x name, c at level 100, k at level 200).

Definition effects {A} (c : Async A) : list Effect := fst c.
Definition outcome {A} (c : Async A) : Outcome A := snd c.

(** ** process.env *)

Abbreviation Env := (gmap string string).

(** [!process.env[key]]: true when the variable is unset or empty. *)
Definition env_falsy (v : option string) : bool :=
  match v with
  | None => true
  | Some s => String.eqb s ""
  end.

(** [process.env[key]?.length === 0] *)
Definition env_length_is_zero (v : option string) : bool :=
  match v with
  | None => false
  | Some s => Nat.eqb (String.length s) 0
  end.

(** ** env.checks.ts *)

Definition requiredVars : list string :=
  ["SUPABASE_URL"; "SUPABASE_SERVICE_ROLE_KEY"].

Definition is_missing (env : Env) (key : string) : bool :=
  env_falsy (env !! key) || env_length_is_zero (env !! key).

Definition missing_vars (env : Env) : list string :=
  List.filter (is_missing env) requiredVars.

Definition checkEnv (env : Env) : Async CheckResult :=
  try_catch
    (let missing := missing_vars env in
     if Nat.ltb 0 (length missing) then
       ret {| name := "env";
              status := DEGRADED;
              error := Some (JsString ("Missing env vars: " ++ join ", " missing)) |}
     else
       ret {| name := "env"; status := OK; error := None |})
    (fun err =>
       ret {| name := "env";
              status := DEGRADED;
              error := Some (message_or err "env check failed") |}).

(** ** supabase.check.ts *)

(** What evaluating an expression and awaiting its value does: the
    evaluation throws before anything is awaited, or the awaited value
    resolves, rejects, or never settles. *)
Inductive Awaited : Type :=
| Throws (e : JsValue)
| Resolves (v : JsValue)
| Rejects (e : JsValue)
| Pending.

(** The Supabase client library and the service behind it, as seen from
    [checkSupabase]. [createClient url key] is [Some e] when the constructor
    throws [e]. [query url key] is what
    [await supabase.from('pg_catalog.pg_tables').select('tablename').limit(1)]
    does on the client built for [url] and [key]: [Throws e] when the chain
    of calls that builds the request throws [e], so that nothing is sent and
    nothing is awaited. *)
Record Supabase : Type := {
  createClient : string -> string -> option JsValue;
  query : string -> string -> Awaited
}.

Definition call_createClient (sb : Supabase) (url key : string) : Async unit :=
  let* _ := perform (EffCreateClient url key) in
  match createClient sb url key with
  | Some e => throw e
  | None => ret tt
  end.

Definition await_query (sb : Supabase) (url key : string) : Async JsValue :=
  match query sb url key with
  | Throws e => throw e
  | Resolves v =>
      let* _ := perform EffQuery in
      let* _ := perform EffAwait in
      ret v
  | Rejects e =>
      let* _ := perform EffQuery in
      let* _ := perform EffAwait in
      throw e
  | Pending =>
      let* _ := perform EffQuery in
      let* _ := perform EffAwait in
      ([], Hang)
  end.

(** [const { error } = v]: destructuring [null] or [undefined] is a
    TypeError. *)
Definition destructure_error (v : JsValue) : Async JsValue :=
  if nullish v then throw (new_TypeError "Cannot destructure property 'error'")
  else ret (get v "error").

Definition checkSupabase (env : Env) (sb : Supabase) : Async CheckResult :=
  try_catch
    (if env_falsy (env !! "SUPABASE_URL")
        || env_falsy (env !! "SUPABASE_SERVICE_ROLE_KEY")
     then
       ret {| name := "supabase";
              status := DEGRADED;
              error := Some (JsString "Supabase env not configured") |}
     else
       let url := default "" (env !! "SUPABASE_URL") in
       let key := default "" (env !! "SUPABASE_SERVICE_ROLE_KEY") in
       let* _ := call_createClient sb url key in
       let* res := await_query sb url key in
       let* err := destructure_error res in
       if truthy err then throw err
       else ret {| name := "supabase"; status := OK; error := None |})
    (fun err =>
       ret {| name := "supabase";
              status := DEGRADED;
              error := Some (message_or err "Supabase unreachable") |}).

(** ** health.service.ts *)

Definition TIMEOUT_MS : Z := 1500.

(** The fields [status], [version] and [uptime] of the DTO; the prefix keeps
    them apart from the fields of [CheckResult]. *)
Record HealthResponseDto : Type := {
  hr_status : Status;
  hr_version : option string;
  hr_uptime : Z
}.

(** [startedAt] is the reading of [Date.now()] when the service was built,
    [now] the reading inside the call, both in milliseconds; [version] is
    [process.env.APP_VERSION]. [Z.div] rounds towards minus infinity, as
    [Math.floor] does. *)
Definition liveness (startedAt now : Z) (version : option string) : HealthResponseDto :=
  {| hr_status := OK;
     hr_version := version;
     hr_uptime := ((now - startedAt) / 1000)%Z |}.

(** *** Promises *)

Inductive Settled (T : Type) : Type :=
| Fulfilled (value : T)
| Rejected (reason : JsValue).
Arguments Fulfilled {T} value.
Arguments Rejected {T} reason.

(** The future of the promise an async call returns: already settled when
    the caller gets it (the function never reached an [await]), settled by a
    later turn of the event loop, or never. *)
Inductive Promise (T : Type) : Type :=
| SettledNow (s : Settled T)
| SettlesLater (s : Settled T)
| NeverSettles.
Arguments SettledNow {T} s.
Arguments SettlesLater {T} s.
Arguments NeverSettles {T}.

Definition is_await (eff : Effect) : bool :=
  match eff with
  | EffAwait => true
  | _ => false
  end.

Definition suspended {A} (c : Async A) : bool := existsb is_await (effects c).

Definition promise_of {A} (c : Async A) : Promise A :=
  match outcome c with
  | Ret a => if suspended c then SettlesLater (Fulfilled a) else SettledNow (Fulfilled a)
  | Throw e => if suspended c then SettlesLater (Rejected e) else SettledNow (Rejected e)
  | Hang => NeverSettles
  end.

(** *** withTimeout *)

(** The promise built by [withTimeout] together with its timer [t]:
    [settled] is [None] while the promise is pending, [timer] is [Some ms]
    while the timer is armed. *)
Record Slot (T : Type) : Type := mkSlot {
  settled : option (Settled T);
  timer : option Z
}.
Arguments mkSlot {T} settled timer.
Arguments settled {T} s.
Arguments timer {T} s.

(** [resolve(r)] and [reject(e)]: only the first call settles the promise. *)
Definition resolve {T} (r : T) (s : Slot T) : Slot T :=
  match settled s with
  | None => mkSlot (Some (Fulfilled r)) (timer s)
  | Some _ => s
  end.

Definition reject {T} (e : JsValue) (s : Slot T) : Slot T :=
  match settled s with
  | None => mkSlot (Some (Rejected e)) (timer s)
  | Some _ => s
  end.

Definition clearTimeout {T} (s : Slot T) : Slot T := mkSlot (settled s) None.

(** The callback given to [setTimeout]; it runs only if the timer is still
    armed, and a timer fires once. *)
Definition on_timer {T} (s : Slot T) : Slot T :=
  match timer s with
  | Some _ => reject (new_Error "timeout") (mkSlot (settled s) None)
  | None => s
  end.

(** The callbacks given to [.then] and [.catch]. *)
Definition on_then {T} (r : T) (s : Slot T) : Slot T := resolve r (clearTimeout s).
Definition on_catch {T} (e : JsValue) (s : Slot T) : Slot T := reject e (clearTimeout s).

Definition on_settle {T} (o : Settled T) (s : Slot T) : Slot T :=
  match o with
  | Fulfilled r => on_then r s
  | Rejected e => on_catch e s
  end.

(** [withTimeout(promise, ms)], up to the end of the microtasks of the
    current turn: the executor arms the timer and registers the callbacks;
    on a promise that is settled already they run before any timer can. *)
Definition withTimeout {T} (promise : Promise T) (ms : Z) : Slot T :=
  let s := mkSlot None (Some ms) in
  match promise with
  | SettledNow o => on_settle o s
  | _ => s
  end.

(** *** The event loop after [readiness] has started its checks *)

(** What the event loop can deliver to slot [i]: the deadline of its timer
    is reached, or its check settles. *)
Inductive Event : Type :=
| Deadline (i : nat)
| Settles (i : nat).

(** One turn. A deadline runs the timer callback of its slot (if the timer is
    still armed); a check that was suspended settles with the outcome its
    promise holds and runs the [.then] or [.catch] callback of its slot. A
    check that never settles, or whose callbacks ran at the start, delivers
    nothing. *)
Definition step {T} (promises : list (Promise T)) (slots : list (Slot T))
    (ev : Event) : list (Slot T) :=
  match ev with
  | Deadline i => alter on_timer i slots
  | Settles i =>
      match promises !! i with
      | Some (SettlesLater o) => alter (on_settle o) i slots
      | _ => slots
      end
  end.

Definition event_loop {T} (promises : list (Promise T)) (ms : Z)
    (schedule : list Event) : list (Slot T) :=
  fold_left (step promises) schedule (map (fun p => withTimeout p ms) promises).

(** [Promise.allSettled]: pending ([None]) until every input has settled,
    then the outcomes in the order of the inputs. *)
Definition allSettled {T} (slots : list (Slot T)) : option (list (Settled T)) :=
  mapM settled slots.

(** *** mapResult and readiness *)

Definition mapResult (result : Settled CheckResult) : CheckResult :=
  match result with
  | Fulfilled value => value
  | Rejected reason =>
      {| name := "unknown";
         status := DEGRADED;
         error := Some (message_or reason "failed") |}
  end.

Record ReadinessReport : Type := {
  ready : bool;
  checks : list CheckResult
}.

(** Lines 26 to 29 of [readiness], from the settled outcomes on. *)
Definition report (settledChecks : list (Settled CheckResult)) : ReadinessReport :=
  let mapped := map mapResult settledChecks in
  {| ready := every (fun c => status_eqb (status c) OK) mapped;
     checks := mapped |}.

(** The timeout runner at any number of checks: what
    [await Promise.allSettled(promises.map(p => withTimeout(p, ms)))]
    gives under a schedule. *)
Definition settle_all {T} (promises : list (Promise T)) (ms : Z)
    (schedule : list Event) : Outcome (list (Settled T)) :=
  match allSettled (event_loop promises ms schedule) with
  | Some outcomes => Ret outcomes
  | None => Hang
  end.

Definition readiness_promises (env : Env) (sb : Supabase) : list (Promise CheckResult) :=
  [promise_of (checkEnv env); promise_of (checkSupabase env sb)].

(** The body of [readiness] over the array of check promises it is given:
    await the settled outcomes, then build the report. *)
Definition readiness_with (promises : list (Promise CheckResult)) (ms : Z)
    (schedule : list Event) : Outcome ReadinessReport :=
  match settle_all promises ms schedule with
  | Ret settledChecks => Ret (report settledChecks)
  | Throw e => Throw e
  | Hang => Hang
  end.

Definition readiness (env : Env) (sb : Supabase) (schedule : list Event)
    : Outcome ReadinessReport :=
  readiness_with (readiness_promises env sb) TIMEOUT_MS schedule.

(** ** Vocabulary of the properties *)

(** The events of one slot, in the order of the schedule. *)
Inductive SlotEvent (T : Type) : Type :=
| TimerDue
| CheckSettled (o : Settled T).
Arguments TimerDue {T}.
Arguments CheckSettled {T} o.

Definition slot_step {T} (s : Slot T) (ev : SlotEvent T) : Slot T :=
  match ev with
  | TimerDue => on_timer s
  | CheckSettled o => on_settle o s
  end.

Definition slot_event {T} (promises : list (Promise T)) (i : nat) (ev : Event)
    : option (SlotEvent T) :=
  match ev with
  | Deadline j => if Nat.eqb i j then Some TimerDue else None
  | Settles j =>
      if Nat.eqb i j then
        match promises !! i with
        | Some (SettlesLater o) => Some (CheckSettled o)
        | _ => None
        end
      else None
  end.

Definition slot_events {T} (promises : list (Promise T)) (i : nat)
    (schedule : list Event) : list (SlotEvent T) :=
  omap (slot_event promises i) schedule.

(** The life of one slot on its own events. *)
Definition slot_run {T} (promise : Promise T) (ms : Z) (evs : list (SlotEvent T)) : Slot T :=
  fold_left slot_step evs (withTimeout promise ms).

(** The timer of slot [i] fires before its check settles: the check was not
    settled at the start, and the first thing delivered to the slot is its
    deadline. *)
Definition timer_fires_first {T} (promises : list (Promise T)) (i : nat)
    (schedule : list Event) : Prop :=
  (promises !! i = Some NeverSettles \/ exists o, promises !! i = Some (SettlesLater o))
  /\ exists rest, slot_events promises i schedule = TimerDue :: rest.

(** The check of slot [i] settles by rejecting with [e] before the timer
    fires. *)
Definition check_rejects_first {T} (promises : list (Promise T)) (i : nat)
    (schedule : list Event) (e : JsValue) : Prop :=
  promises !! i = Some (SettledNow (Rejected e))
  \/ (promises !! i = Some (SettlesLater (Rejected e))
      /\ exists rest, slot_events promises i schedule = CheckSettled (Rejected e) :: rest).

(** Every timer has reached its deadline. *)
Definition deadlines_reached (n : nat) (schedule : list Event) : Prop :=
  forall i, i < n -> In (Deadline i) schedule.

(** A variable counts as not configured when it is absent or empty. *)
Definition unset (env : Env) (key : string) : Prop :=
  env !! key = None \/ env !! key = Some "".

(** The three results with a fixed text. *)
Definition env_ok_result : CheckResult :=
  {| name := "env"; status := OK; error := None |}.

Definition env_missing_result (missing : list string) : CheckResult :=
  {| name := "env";
     status := DEGRADED;
     error := Some (JsString ("Missing env vars: " ++ join ", " missing)) |}.

Definition supabase_not_configured : CheckResult :=
  {| name := "supabase";
     status := DEGRADED;
     error := Some (JsString "Supabase env not configured") |}.

Definition timeout_result : CheckResult :=
  {| name := "unknown"; status := DEGRADED; error := Some (JsString "timeout") |}.

Definition supabase_ok_result : CheckResult :=
  {| name := "supabase"; status := OK; error := None |}.

(** What the [catch] of [checkSupabase] makes of the value it caught. *)
Definition supabase_degraded (err : JsValue) : CheckResult :=
  {| name := "supabase";
     status := DEGRADED;
     error := Some (message_or err "Supabase unreachable") |}.

(** The value that reaches the [catch] of [checkSupabase] once the
    configuration guard has passed: thrown by [createClient], thrown while
    the request is built, the rejection of the awaited query, the TypeError
    of destructuring nothing, or the truthy [error] of the response. *)
Definition supabase_failure (sb : Supabase) (url key : string) (err : JsValue) : Prop :=
  createClient sb url key = Some err
  \/ (createClient sb url key = None
      /\ (query sb url key = Throws err
          \/ query sb url key = Rejects err
          \/ exists v,
               query sb url key = Resolves v
               /\ ((nullish v = true
                    /\ err = new_TypeError "Cannot destructure property 'error'")
                   \/ (nullish v = false /\ err = get v "error" /\ truthy err = true)))).

(** The [error] property is absent or holds a string. *)
Definition absent_or_string (err : option JsValue) : Prop :=
  err = None \/ exists s, err = Some (JsString s).

(** A caught value whose [message], if it has one, is a string: what the
    declarations of [Error] and of the client's error type promise. *)
Definition message_is_text (err : JsValue) : Prop :=
  nullish (opt_get err "message") = true \/ is_string (opt_get err "message") = true.

Definition failures_have_text (sb : Supabase) : Prop :=
  forall url key err, supabase_failure sb url key err -> message_is_text err.

(** Invariant of a slot: a timer that is no longer armed belongs to a
    settled promise. *)
Definition slot_inv {T} (s : Slot T) : Prop :=
  timer s = None -> is_Some (settled s).

(** An event that the check behind [p] can cause. *)
Definition coherent {T} (p : Promise T) (ev : SlotEvent T) : Prop :=
  ev = TimerDue \/ exists o, ev = CheckSettled o /\ p = SettlesLater o.

(** The outcomes slot of [p] may settle with: the timeout, or what the check
    settles with. *)
Definition may_settle_with {T} (p : Promise T) (o : Settled T) : Prop :=
  o = Rejected (new_Error "timeout") \/ p = SettledNow o \/ p = SettlesLater o.

(** ** Sample environments and services *)

Definition configured_env : Env :=
  <["SUPABASE_URL" := "https://db.example.test"]>
    (<["SUPABASE_SERVICE_ROLE_KEY" := "service-role-key"]> ∅).

(** The service answers the ping without an error. *)
Definition healthy_service : Supabase :=
  {| createClient := fun _ _ => None;
     query := fun _ _ =>
       Resolves (JsObject [("data", JsObject []); ("error", JsNull)]) |}.

(** The request fails with an Error whose message is a string. *)
Definition refusing_service : Supabase :=
  {| createClient := fun _ _ => None;
     query := fun _ _ => Rejects (new_Error "connection refused") |}.

(** The response carries an error object whose [message] is a number. *)
Definition numeric_error_service : Supabase :=
  {| createClient := fun _ _ => None;
     query := fun _ _ =>
       Resolves (JsObject [("data", JsNull);
                           ("error", JsObject [("message", JsNumber 503)])]) |}.

(** The response carries an error object whose [message] is itself an
    object. *)
Definition nested_error_service : Supabase :=
  {| createClient := fun _ _ => None;
     query := fun _ _ =>
       Resolves (JsObject [("data", JsNull);
                           ("error", JsObject [("message", new_Error "upstream")])]) |}.

(** The request never completes. *)
Definition hanging_service : Supabase :=
  {| createClient := fun _ _ => None;
     query := fun _ _ => Pending |}.

(** Building the request throws: nothing is sent, nothing is awaited. *)
Definition throwing_builder_service : Supabase :=
  {| createClient := fun _ _ => None;
     query := fun _ _ => Throws (new_TypeError "supabase.from is not a function") |}.

(** ** Vocabulary of the further properties *)

(** The other half of the slot invariant: a settled promise has no armed
    timer left. *)
Definition timer_inv {T} (s : Slot T) : Prop :=
  is_Some (settled s) -> timer s = None.

(** The check of slot [i] settles by fulfilling with [v] before the timer
    fires. *)
Definition check_fulfils_first {T} (promises : list (Promise T)) (i : nat)
    (schedule : list Event) (v : T) : Prop :=
  promises !! i = Some (SettledNow (Fulfilled v))
  \/ (promises !! i = Some (SettlesLater (Fulfilled v))
      /\ exists rest, slot_events promises i schedule = CheckSettled (Fulfilled v) :: rest).

(** The arguments [checkSupabase] hands to [createClient]. *)
Definition env_url (env : Env) : string := default "" (env !! "SUPABASE_URL").
Definition env_key (env : Env) : string :=
  default "" (env !! "SUPABASE_SERVICE_ROLE_KEY").

(** Both variables are present and not empty. *)
Definition configured (env : Env) : Prop :=
  ~ unset env "SUPABASE_URL" /\ ~ unset env "SUPABASE_SERVICE_ROLE_KEY".

(** The client is built and the ping answers with something that can be
    destructured and whose [error] is falsy. *)
Definition probe_healthy (sb : Supabase) (url key : string) : Prop :=
  createClient sb url key = None
  /\ exists v, query sb url key = Resolves v
              /\ nullish v = false /\ truthy (get v "error") = false.

(** The client is built and the ping never answers. *)
Definition probe_hangs (sb : Supabase) (url key : string) : Prop :=
  createClient sb url key = None /\ query sb url key = Pending.

(** The check fails with [e] before it reaches its [await]: [createClient]
    throws, or the chain of calls that builds the request does. *)
Definition probe_fails_early (sb : Supabase) (url key : string) (e : JsValue) : Prop :=
  createClient sb url key = Some e
  \/ (createClient sb url key = None /\ query sb url key = Throws e).

(** The client is built, the request is sent and the awaited ping settles,
    by resolving or by rejecting. *)
Definition probe_answers (sb : Supabase) (url key : string) : Prop :=
  createClient sb url key = None
  /\ ((exists v, query sb url key = Resolves v)
      \/ (exists e, query sb url key = Rejects e)).

(** * Properties *)

(** ** Array helpers *)

Lemma every_Forall {A} (p : A -> bool) (xs : list A) :
  every p xs = true <-> Forall (fun x => p x = true) xs.
Proof.
  induction xs as [|x xs IH]; simpl.
  - split; [constructor | reflexivity].
  - destruct (p x) eqn:Hx.
    + rewrite IH. split.
      * intros H. constructor; assumption.
      * intros H. inversion H; assumption.
    + split; [discriminate |].
      intros H. inversion H; congruence.
Qed.

Lemma every_fold_andb {A} (p : A -> bool) (xs : list A) :
  every p xs = fold_right andb true (map p xs).
Proof.
  induction xs as [|x xs IH]; simpl; [reflexivity |].
  rewrite <- IH. destruct (p x); reflexivity.
Qed.

Lemma status_eqb_OK (s : Status) : status_eqb s OK = true <-> s = OK.
Proof. destruct s; simpl; split; congruence. Qed.

Lemma map_mapResult_Fulfilled (results : list CheckResult) :
  map mapResult (map Fulfilled results) = results.
Proof.
  induction results as [|r rs IH]; simpl; [reflexivity |].
  f_equal. exact IH.
Qed.

(** ** Readiness verdict *)

(** C1. Whatever the checks settled with, [ready] in the report is the
    conjunction of [status == OK] over the entries of [checks], in both
    readings (every entry is OK; the fold of [&&] over the list), and it is
    true for the empty list. Every list of check results is the [checks] of
    such a report. *)
Theorem ready_is_conjunction_of_ok :
  (forall outcomes : list (Settled CheckResult),
      let r := report outcomes in
      (ready r = true <-> Forall (fun c => status c = OK) (checks r))
      /\ ready r
         = fold_right andb true (map (fun c => status_eqb (status c) OK) (checks r)))
  /\ (forall results : list CheckResult,
         checks (report (map Fulfilled results)) = results)
  /\ ready (report []) = true.
Proof.
  split; [| split].
  - intros outcomes r. subst r. unfold report; simpl. split.
    + rewrite every_Forall. apply Forall_iff. intros c. apply status_eqb_OK.
    + apply every_fold_andb.
  - intros results. unfold report; simpl. apply map_mapResult_Fulfilled.
  - reflexivity.
Qed.

(** ** Liveness *)

(** C7, with the proviso the code needs. Every call of [liveness]
    reports status OK and an uptime that is the floor of the elapsed
    milliseconds over 1000, an integer. The uptime is not negative whenever
    the clock reads no earlier at the call than it did at construction, and
    it does not decrease from a first call to a second one when the clock
    does not run backwards between them. *)
Theorem liveness_uptime :
  forall (startedAt now1 now2 : Z) (version : option string),
    let first := liveness startedAt now1 version in
    let second := liveness startedAt now2 version in
    hr_status first = OK
    /\ hr_uptime first = ((now1 - startedAt) / 1000)%Z
    /\ (1000 * hr_uptime first <= now1 - startedAt < 1000 * hr_uptime first + 1000)%Z
    /\ ((startedAt <= now1)%Z -> (0 <= hr_uptime first)%Z)
    /\ ((now1 <= now2)%Z -> (hr_uptime first <= hr_uptime second)%Z).
Proof.
  intros startedAt now1 now2 version first second.
  subst first second. unfold liveness; simpl.
  split; [reflexivity | split; [reflexivity | split; [| split]]].
  - split.
    + apply Z.mul_div_le; lia.
    + pose proof (Z.mul_succ_div_gt (now1 - startedAt) 1000 ltac:(lia)). lia.
  - intros H. apply Z.div_pos; lia.
  - intros H. apply Z.div_le_mono; lia.
Qed.

Lemma liveness_uptime_witness :
  hr_status (liveness 1000 3500 (Some "1.0.0")) = OK
  /\ hr_uptime (liveness 1000 3500 (Some "1.0.0")) = 2%Z
  /\ (0 <= hr_uptime (liveness 1000 3500 (Some "1.0.0")))%Z
  /\ (hr_uptime (liveness 1000 3500 (Some "1.0.0"))
      <= hr_uptime (liveness 1000 9999 (Some "1.0.0")))%Z.
Proof.
  destruct (liveness_uptime 1000 3500 9999 (Some "1.0.0"))
    as (Hstatus & Huptime & _ & Hpos & Hmono).
  split; [exact Hstatus | split; [exact Huptime | split]].
  - apply Hpos. lia.
  - apply Hmono. lia.
Defined.

(** C7 as worded (the uptime is not negative at every call) fails:
    [liveness] reads [Date.now()] and subtracts, with no clamp, so a clock
    that reads one millisecond earlier than at construction gives -1. *)
Lemma liveness_uptime_negative :
  hr_uptime (liveness 1000 999 None) = (-1)%Z
  /\ ~ (forall (startedAt now : Z) (version : option string),
          (0 <= hr_uptime (liveness startedAt now version))%Z).
Proof.
  split; [reflexivity |].
  intros Hall. specialize (Hall 1000%Z 999%Z None).
  vm_compute in Hall. apply Hall. reflexivity.
Qed.

(** ** Environment check *)

Lemma env_falsy_unset (env : Env) (key : string) :
  env_falsy (env !! key) = true <-> unset env key.
Proof.
  unfold unset, env_falsy. destruct (env !! key) as [s|].
  - rewrite String.eqb_eq. split.
    + intros ->. right; reflexivity.
    + intros [H | H]; [discriminate | congruence].
  - split; [left | ]; reflexivity.
Qed.

Lemma is_missing_unset (env : Env) (key : string) :
  is_missing env key = true <-> unset env key.
Proof.
  unfold is_missing. rewrite orb_true_iff, env_falsy_unset. split.
  - intros [H | H]; [exact H |].
    unfold env_length_is_zero in H. unfold unset.
    destruct (env !! key) as [s|]; [| discriminate].
    destruct s; [right; reflexivity | discriminate].
  - intros H. left; exact H.
Qed.

Lemma checkEnv_eq (env : Env) :
  checkEnv env
  = ([], Ret (match missing_vars env with
              | [] => env_ok_result
              | _ :: _ => env_missing_result (missing_vars env)
              end)).
Proof.
  unfold checkEnv, try_catch, ret.
  destruct (missing_vars env) as [|k ks]; reflexivity.
Qed.

Lemma elem_missing_vars (env : Env) (key : string) :
  In key (missing_vars env) <-> In key requiredVars /\ unset env key.
Proof.
  unfold missing_vars. rewrite filter_In, is_missing_unset. reflexivity.
Qed.

Lemma missing_vars_nil (env : Env) :
  missing_vars env = []
  <-> ~ unset env "SUPABASE_URL" /\ ~ unset env "SUPABASE_SERVICE_ROLE_KEY".
Proof.
  rewrite <- !is_missing_unset. unfold missing_vars, requiredVars; simpl.
  destruct (is_missing env "SUPABASE_URL"), (is_missing env "SUPABASE_SERVICE_ROLE_KEY");
    (split; [ first [discriminate | intros _; split; discriminate]
            | first [reflexivity | intros [H1 H2]; exfalso; first [now apply H1 | now apply H2]] ]).
Qed.

Lemma filter_sublist {A} (p : A -> bool) (xs : list A) :
  sublist (List.filter p xs) xs.
Proof.
  induction xs as [|x xs IH]; simpl.
  - constructor.
  - destruct (p x); [apply sublist_skip | apply sublist_cons]; exact IH.
Qed.

Lemma missing_vars_sublist (env : Env) : sublist (missing_vars env) requiredVars.
Proof. apply filter_sublist. Qed.

(** C5. [checkEnv] returns (it does not throw and performs no outside
    operation) a result named "env". The names it reports missing are the
    required names that are absent or empty, in the order of [requiredVars].
    With at least one of them the result is DEGRADED and its error is
    "Missing env vars: " followed by those names joined with ", "; with none
    the result is OK and has no [error] property. *)
Theorem checkEnv_result :
  forall env : Env,
    let missing := missing_vars env in
    (forall key, In key missing <-> In key requiredVars /\ unset env key)
    /\ sublist missing requiredVars
    /\ exists r,
        checkEnv env = ([], Ret r)
        /\ name r = "env"
        /\ r = match missing with
               | [] => {| name := "env"; status := OK; error := None |}
               | _ :: _ =>
                   {| name := "env";
                      status := DEGRADED;
                      error := Some (JsString ("Missing env vars: " ++ join ", " missing)) |}
               end.
Proof.
  intros env missing. subst missing.
  split; [apply elem_missing_vars |].
  split; [apply missing_vars_sublist |].
  eexists. split; [apply checkEnv_eq |].
  destruct (missing_vars env); split; reflexivity.
Qed.

Lemma not_unset_present (env : Env) (key : string) :
  ~ unset env key <-> exists v, env !! key = Some v /\ v <> "".
Proof.
  unfold unset. destruct (env !! key) as [s|].
  - split.
    + intros H. exists s. split; [reflexivity |].
      intros ->. apply H. right; reflexivity.
    + intros (v & Hv & Hne) [H | H]; [discriminate |]. congruence.
  - split.
    + intros H. exfalso. apply H. left; reflexivity.
    + intros (v & Hv & _). discriminate.
Qed.

Lemma missing_vars_both (env : Env) :
  unset env "SUPABASE_URL" -> unset env "SUPABASE_SERVICE_ROLE_KEY" ->
  missing_vars env = ["SUPABASE_URL"; "SUPABASE_SERVICE_ROLE_KEY"].
Proof.
  intros H1 H2. apply is_missing_unset in H1, H2.
  unfold missing_vars, requiredVars; simpl. rewrite H1, H2. reflexivity.
Qed.

Lemma checkEnv_status_OK (env : Env) (r : CheckResult) :
  checkEnv env = ([], Ret r) ->
  status r = OK <-> missing_vars env = [].
Proof.
  rewrite checkEnv_eq. intros H. injection H as <-.
  destruct (missing_vars env); simpl; split; congruence.
Qed.

(** C9. The keys [checkEnv] requires are SUPABASE_URL and
    SUPABASE_SERVICE_ROLE_KEY, in this order. Its result is OK exactly when
    both variables are present and not empty, and when both are missing the
    error reads "Missing env vars: SUPABASE_URL, SUPABASE_SERVICE_ROLE_KEY". *)
Theorem checkEnv_required_keys :
  forall env : Env,
    requiredVars = ["SUPABASE_URL"; "SUPABASE_SERVICE_ROLE_KEY"]
    /\ exists r,
        checkEnv env = ([], Ret r)
        /\ (status r = OK
            <-> (exists url, env !! "SUPABASE_URL" = Some url /\ url <> "")
                /\ (exists key, env !! "SUPABASE_SERVICE_ROLE_KEY" = Some key /\ key <> ""))
        /\ (unset env "SUPABASE_URL" -> unset env "SUPABASE_SERVICE_ROLE_KEY" ->
            r = {| name := "env";
                   status := DEGRADED;
                   error := Some (JsString
                     "Missing env vars: SUPABASE_URL, SUPABASE_SERVICE_ROLE_KEY") |}).
Proof.
  intros env. split; [reflexivity |].
  eexists. split; [apply checkEnv_eq |]. split.
  - rewrite <- !not_unset_present, <- missing_vars_nil.
    apply checkEnv_status_OK, checkEnv_eq.
  - intros H1 H2. rewrite (missing_vars_both env H1 H2). reflexivity.
Qed.

Lemma checkEnv_required_keys_witness :
  exists r,
    checkEnv (∅ : Env) = ([], Ret r)
    /\ r = {| name := "env";
              status := DEGRADED;
              error := Some (JsString
                "Missing env vars: SUPABASE_URL, SUPABASE_SERVICE_ROLE_KEY") |}.
Proof.
  destruct (checkEnv_required_keys (∅ : Env)) as (_ & r & Hr & _ & Hboth).
  exists r. split; [exact Hr |].
  apply Hboth; left; reflexivity.
Defined.

(** ** Supabase check *)

Lemma checkSupabase_not_configured (env : Env) (sb : Supabase) :
  unset env "SUPABASE_URL" \/ unset env "SUPABASE_SERVICE_ROLE_KEY" ->
  checkSupabase env sb = ([], Ret supabase_not_configured).
Proof.
  intros H. unfold checkSupabase.
  assert (Hg : env_falsy (env !! "SUPABASE_URL")
               || env_falsy (env !! "SUPABASE_SERVICE_ROLE_KEY") = true).
  { apply orb_true_iff. rewrite !env_falsy_unset. exact H. }
  rewrite Hg. reflexivity.
Qed.

(** Every way [checkSupabase] can go. *)
Lemma checkSupabase_paths (env : Env) (sb : Supabase) :
  let url := default "" (env !! "SUPABASE_URL") in
  let key := default "" (env !! "SUPABASE_SERVICE_ROLE_KEY") in
  ((unset env "SUPABASE_URL" \/ unset env "SUPABASE_SERVICE_ROLE_KEY")
   /\ checkSupabase env sb = ([], Ret supabase_not_configured))
  \/ (~ unset env "SUPABASE_URL" /\ ~ unset env "SUPABASE_SERVICE_ROLE_KEY"
      /\ ((createClient sb url key = None /\ query sb url key = Pending
           /\ checkSupabase env sb
              = ([EffCreateClient url key; EffQuery; EffAwait], Hang))
          \/ (exists v, createClient sb url key = None
               /\ query sb url key = Resolves v
               /\ nullish v = false /\ truthy (get v "error") = false
               /\ checkSupabase env sb
                  = ([EffCreateClient url key; EffQuery; EffAwait], Ret supabase_ok_result))
          \/ (exists err log, supabase_failure sb url key err
               /\ checkSupabase env sb = (log, Ret (supabase_degraded err))))).
Proof.
  intros url key.
  destruct (env_falsy (env !! "SUPABASE_URL")
            || env_falsy (env !! "SUPABASE_SERVICE_ROLE_KEY")) eqn:Hg.
  - left. apply orb_true_iff in Hg. rewrite !env_falsy_unset in Hg.
    split; [exact Hg | apply checkSupabase_not_configured; exact Hg].
  - right. apply orb_false_iff in Hg. destruct Hg as [Hu Hk].
    split; [rewrite <- env_falsy_unset; congruence |].
    split; [rewrite <- env_falsy_unset; congruence |].
    unfold checkSupabase. rewrite Hu, Hk. simpl orb. cbv iota.
    fold url key. unfold call_createClient, await_query, supabase_failure.
    destruct (createClient sb url key) as [e|] eqn:Hc.
    { right; right. exists e, [EffCreateClient url key]. split; [left; reflexivity | reflexivity]. }
    destruct (query sb url key) as [e0 | v | e |] eqn:Hq.
    + right; right. eexists _, _. split.
      * right. split; [reflexivity |]. left; reflexivity.
      * reflexivity.
    + unfold destructure_error. destruct (nullish v) eqn:Hn.
      * right; right. eexists _, _. split.
        -- right. split; [reflexivity |]. right; right. exists v.
           split; [reflexivity |]. left. split; [exact Hn | reflexivity].
        -- simpl. rewrite Hn. reflexivity.
      * destruct (truthy (get v "error")) eqn:Ht.
        -- right; right. exists (get v "error"). eexists. split.
           ++ right. split; [reflexivity |]. right; right. exists v.
              split; [reflexivity |]. right. repeat split; assumption.
           ++ simpl. rewrite Hn. simpl. rewrite Ht. reflexivity.
        -- right; left. exists v. repeat split; try assumption.
           simpl. rewrite Hn. simpl. rewrite Ht. reflexivity.
    + right; right. eexists _, _. split.
      * right. split; [reflexivity |]. right; left; reflexivity.
      * reflexivity.
    + left. repeat split.
Qed.

Lemma message_or_text (err : JsValue) (fallback : string) :
  message_is_text err -> exists s, message_or err fallback = JsString s.
Proof.
  unfold message_is_text, message_or, coalesce.
  intros [H | H].
  - rewrite H. eexists; reflexivity.
  - destruct (opt_get err "message"); try discriminate. eexists; reflexivity.
Qed.

Lemma supabase_failure_unique (sb : Supabase) (url key : string) (e1 e2 : JsValue) :
  supabase_failure sb url key e1 -> supabase_failure sb url key e2 -> e1 = e2.
Proof.
  unfold supabase_failure.
  intros [H1 | (H1 & [B1 | [Q1 | (v1 & Q1 & [(N1 & E1) | (N1 & E1 & T1)])]])]
         [H2 | (H2 & [B2 | [Q2 | (v2 & Q2 & [(N2 & E2) | (N2 & E2 & T2)])]])];
    try congruence.
Qed.

Lemma checkSupabase_failure (env : Env) (sb : Supabase) (err : JsValue) :
  ~ unset env "SUPABASE_URL" -> ~ unset env "SUPABASE_SERVICE_ROLE_KEY" ->
  supabase_failure sb (default "" (env !! "SUPABASE_URL"))
                      (default "" (env !! "SUPABASE_SERVICE_ROLE_KEY")) err ->
  outcome (checkSupabase env sb) = Ret (supabase_degraded err).
Proof.
  intros Hu Hk Hf.
  destruct (checkSupabase_paths env sb)
    as [([H | H] & _) | (_ & _ & [(Hc & Hq & _) | [(v & Hc & Hq & Hn & Ht & _) | (e & log & He & ->)]])];
    try contradiction.
  - exfalso. unfold supabase_failure in Hf.
    destruct Hf as [H | (_ & [H | [H | (v & H & _)]])]; congruence.
  - exfalso. unfold supabase_failure in Hf.
    destruct Hf as [H | (_ & [H | [H | (v' & H & [(N & _) | (N & E & T)])]])]; congruence.
  - simpl. rewrite (supabase_failure_unique _ _ _ _ _ Hf He). reflexivity.
Qed.

(** C6, with the proviso the code needs. When SUPABASE_URL or
    SUPABASE_SERVICE_ROLE_KEY is absent (or empty), [checkSupabase] returns
    at once, with no call to the client library, no request and no
    suspension, the DEGRADED result whose error is "Supabase env not
    configured". On no path does it throw. Whatever it returns is the OK
    result or a DEGRADED result named "supabase" that carries an [error];
    every failure after the guard (a throwing [createClient], a throw while
    the request is built, a rejected request, a response that cannot be
    destructured or that carries an error) ends in the DEGRADED result built
    by the [catch] from the value caught. That error is a message string whenever the message of the
    value caught is a string or is missing (then it is "Supabase
    unreachable"). *)
Theorem checkSupabase_never_throws :
  forall (env : Env) (sb : Supabase),
    (unset env "SUPABASE_URL" \/ unset env "SUPABASE_SERVICE_ROLE_KEY" ->
     checkSupabase env sb = ([], Ret supabase_not_configured))
    /\ (forall e, outcome (checkSupabase env sb) <> Throw e)
    /\ (forall r, outcome (checkSupabase env sb) = Ret r ->
          r = supabase_ok_result
          \/ (name r = "supabase" /\ status r = DEGRADED /\ exists v, error r = Some v))
    /\ (forall err,
          ~ unset env "SUPABASE_URL" -> ~ unset env "SUPABASE_SERVICE_ROLE_KEY" ->
          supabase_failure sb (default "" (env !! "SUPABASE_URL"))
                              (default "" (env !! "SUPABASE_SERVICE_ROLE_KEY")) err ->
          outcome (checkSupabase env sb)
          = Ret {| name := "supabase";
                   status := DEGRADED;
                   error := Some (coalesce (opt_get err "message")
                                           (JsString "Supabase unreachable")) |})
    /\ (failures_have_text sb ->
        forall r, outcome (checkSupabase env sb) = Ret r -> status r = DEGRADED ->
                  exists s, error r = Some (JsString s)).
Proof.
  intros env sb.
  split; [apply checkSupabase_not_configured |].
  pose proof (checkSupabase_paths env sb) as Hp. cbv zeta in Hp.
  split; [| split; [| split]].
  - intros e.
    destruct Hp as [(_ & ->) | (_ & _ & [(_ & _ & ->) | [(v & _ & _ & _ & _ & ->) | (err & log & _ & ->)]])];
      discriminate.
  - intros r.
    destruct Hp as [(_ & ->) | (_ & _ & [(_ & _ & ->) | [(v & _ & _ & _ & _ & ->) | (err & log & _ & ->)]])];
      simpl; intros H; try discriminate; injection H as <-.
    + right. repeat split. eexists; reflexivity.
    + left; reflexivity.
    + right. repeat split. eexists; reflexivity.
  - intros err Hu Hk Hf. apply (checkSupabase_failure env sb err Hu Hk Hf).
  - intros Htext r.
    destruct Hp as [(_ & ->) | (_ & _ & [(_ & _ & ->) | [(v & _ & _ & _ & _ & ->) | (err & log & Hf & ->)]])];
      simpl; intros H; try discriminate; injection H as <-; simpl; intros Hs; try discriminate.
    + eexists; reflexivity.
    + destruct (message_or_text err "Supabase unreachable" (Htext _ _ _ Hf)) as (s & ->).
      eexists; reflexivity.
Qed.

Lemma configured_env_set :
  ~ unset configured_env "SUPABASE_URL"
  /\ ~ unset configured_env "SUPABASE_SERVICE_ROLE_KEY".
Proof.
  split; intros [H | H]; vm_compute in H; discriminate.
Qed.

Lemma refusing_service_has_text : failures_have_text refusing_service.
Proof.
  intros url key err [H | (_ & [H | [H | (v & H & _)]])]; simpl in H; try discriminate.
  injection H as <-. right; reflexivity.
Qed.

Lemma checkSupabase_never_throws_witness :
  checkSupabase (∅ : Env) refusing_service = ([], Ret supabase_not_configured)
  /\ outcome (checkSupabase configured_env refusing_service)
     = Ret {| name := "supabase";
              status := DEGRADED;
              error := Some (JsString "connection refused") |}
  /\ exists s,
       error (supabase_degraded (new_Error "connection refused")) = Some (JsString s).
Proof.
  destruct (checkSupabase_never_throws (∅ : Env) refusing_service) as (Hguard & _).
  destruct (checkSupabase_never_throws configured_env refusing_service)
    as (_ & _ & _ & Hfail & Htext).
  destruct configured_env_set as [Hu Hk].
  split; [apply Hguard; left; left; reflexivity |].
  split.
  - apply (Hfail (new_Error "connection refused") Hu Hk).
    right. split; [reflexivity | right; left; reflexivity].
  - apply (Htext refusing_service_has_text); reflexivity.
Defined.

(** C6 as worded (every failure path carries a message string) fails: a
    response whose error object has the number 503 as its [message] makes
    [checkSupabase] return that number in [error]. *)
Lemma checkSupabase_error_not_a_string :
  outcome (checkSupabase configured_env numeric_error_service)
  = Ret {| name := "supabase"; status := DEGRADED; error := Some (JsNumber 503) |}
  /\ ~ (forall (env : Env) (sb : Supabase) (r : CheckResult),
           outcome (checkSupabase env sb) = Ret r -> status r = DEGRADED ->
           exists s, error r = Some (JsString s)).
Proof.
  assert (Hrun : outcome (checkSupabase configured_env numeric_error_service)
                 = Ret {| name := "supabase"; status := DEGRADED;
                          error := Some (JsNumber 503) |}) by (vm_compute; reflexivity).
  split; [exact Hrun |].
  intros Hall.
  destruct (Hall _ _ _ Hrun eq_refl) as (s & Hs). discriminate.
Qed.

(** ** Timeout slots *)

Section SlotFacts.
Context {T : Type}.
Implicit Types (s : Slot T) (o : Settled T) (p : Promise T).

Lemma slot_step_keeps_settled s ev o :
  settled s = Some o -> settled (slot_step s ev) = Some o.
Proof.
  intros H. destruct s as [st tm]; simpl in H; subst st.
  destruct ev as [|[r|e]]; [destruct tm | |]; reflexivity.
Qed.

Lemma slot_steps_keep_settled evs s o :
  settled s = Some o -> settled (fold_left slot_step evs s) = Some o.
Proof.
  revert s. induction evs as [|ev evs IH]; intros s H; simpl; [exact H |].
  apply IH, slot_step_keeps_settled, H.
Qed.

Lemma slot_step_inv s ev : slot_inv s -> slot_inv (slot_step s ev).
Proof.
  unfold slot_inv. destruct s as [[o|] [ms|]]; simpl; intros H;
    destruct ev as [|[r|e]]; simpl; intros _; eauto.
Qed.

Lemma slot_steps_inv evs s : slot_inv s -> slot_inv (fold_left slot_step evs s).
Proof.
  revert s. induction evs as [|ev evs IH]; intros s H; simpl; [exact H |].
  apply IH, slot_step_inv, H.
Qed.

Lemma withTimeout_inv p ms : slot_inv (withTimeout p ms).
Proof.
  unfold slot_inv. destruct p as [[r|e]|[r|e]|]; simpl; intros H;
    solve [eauto | discriminate].
Qed.

Lemma on_timer_settles s : slot_inv s -> is_Some (settled (on_timer s)).
Proof.
  unfold slot_inv. destruct s as [[o|] [ms|]]; simpl; intros H; eauto.
Qed.

(** Once its deadline has been delivered, a slot is settled. *)
Lemma slot_run_deadline p ms evs :
  In TimerDue evs -> is_Some (settled (slot_run p ms evs)).
Proof.
  unfold slot_run. generalize (withTimeout_inv p ms).
  generalize (withTimeout p ms) as s.
  induction evs as [|ev evs IH]; intros s Hinv Hin; [destruct Hin |].
  simpl. destruct Hin as [-> | Hin].
  - destruct (on_timer_settles s Hinv) as [o Ho].
    exists o. apply slot_steps_keep_settled. exact Ho.
  - apply IH; [apply slot_step_inv; exact Hinv | exact Hin].
Qed.

Lemma slot_run_settled_now o ms evs :
  settled (slot_run (SettledNow o) ms evs) = Some o.
Proof.
  unfold slot_run. apply slot_steps_keep_settled. destruct o; reflexivity.
Qed.

Lemma slot_run_timer_first p ms evs :
  (p = NeverSettles \/ exists o, p = SettlesLater o) ->
  settled (slot_run p ms (TimerDue :: evs)) = Some (Rejected (new_Error "timeout")).
Proof.
  intros Hp. unfold slot_run. simpl. apply slot_steps_keep_settled.
  destruct Hp as [-> | [o ->]]; reflexivity.
Qed.

Lemma slot_run_check_first o ms evs :
  settled (slot_run (SettlesLater o) ms (CheckSettled o :: evs)) = Some o.
Proof.
  unfold slot_run. simpl. apply slot_steps_keep_settled. destruct o; reflexivity.
Qed.

(** A slot settles with the timeout or with the outcome of its check. *)
Lemma slot_step_may_settle p s ev :
  coherent p ev ->
  (forall o, settled s = Some o -> may_settle_with p o) ->
  forall o, settled (slot_step s ev) = Some o -> may_settle_with p o.
Proof.
  intros Hev Hs o. destruct s as [[so|] tm].
  - rewrite (slot_step_keeps_settled (mkSlot (Some so) tm) ev so eq_refl). apply Hs.
  - destruct Hev as [-> | (o' & -> & ->)].
    + destruct tm; simpl; intros [=]. subst o. left; reflexivity.
    + destruct o'; simpl; intros [=]; subst o; right; right; reflexivity.
Qed.

Lemma slot_run_may_settle p ms evs o :
  Forall (coherent p) evs ->
  settled (slot_run p ms evs) = Some o -> may_settle_with p o.
Proof.
  unfold slot_run.
  assert (Hinit : forall o, settled (withTimeout p ms) = Some o -> may_settle_with p o).
  { intros o'. destruct p as [[r|e]|[r|e]|]; simpl; intros [=]; subst o';
      right; left; reflexivity. }
  revert Hinit. generalize (withTimeout p ms) as s.
  induction evs as [|ev evs IH]; intros s Hs Hall; simpl.
  - apply Hs.
  - inversion Hall as [|? ? Hev Hrest]; subst.
    apply IH; [| exact Hrest].
    apply slot_step_may_settle; assumption.
Qed.

End SlotFacts.

(** ** The event loop, slot by slot *)

Section LoopFacts.
Context {T : Type} (promises : list (Promise T)).

Lemma step_lookup (slots : list (Slot T)) (ev : Event) (i : nat) :
  step promises slots ev !! i
  = (fun s => from_option (slot_step s) s (slot_event promises i ev)) <$> slots !! i.
Proof.
  assert (Hid : slots !! i = (fun s => s) <$> slots !! i)
    by (destruct (slots !! i); reflexivity).
  destruct ev as [j | j]; simpl.
  - destruct (Nat.eqb_spec i j) as [-> | Hne].
    + apply list_lookup_alter_eq.
    + rewrite list_lookup_alter_ne by congruence. exact Hid.
  - destruct (Nat.eqb_spec i j) as [-> | Hne].
    + destruct (promises !! j) as [[o | o |] |]; simpl; try exact Hid.
      apply list_lookup_alter_eq.
    + destruct (promises !! j) as [[o | o |] |]; simpl; try exact Hid.
      rewrite list_lookup_alter_ne by congruence. exact Hid.
Qed.

Lemma steps_lookup (schedule : list Event) (slots : list (Slot T)) (i : nat) :
  fold_left (step promises) schedule slots !! i
  = (fun s => fold_left slot_step (slot_events promises i schedule) s) <$> slots !! i.
Proof.
  revert slots. induction schedule as [|ev schedule IH]; intros slots; simpl.
  - destruct (slots !! i); reflexivity.
  - rewrite IH, step_lookup. unfold slot_events. simpl.
    destruct (slots !! i) as [s |]; simpl; [| reflexivity].
    destruct (slot_event promises i ev); reflexivity.
Qed.

(** Slot [i] of the loop lives on its own events only. *)
Lemma event_loop_lookup (ms : Z) (schedule : list Event) (i : nat) :
  event_loop promises ms schedule !! i
  = (fun p => slot_run p ms (slot_events promises i schedule)) <$> promises !! i.
Proof.
  unfold event_loop. rewrite steps_lookup.
  change (map (fun p => withTimeout p ms) promises)
    with ((fun p => withTimeout p ms) <$> promises).
  rewrite list_lookup_fmap.
  destruct (promises !! i); reflexivity.
Qed.

Lemma step_length (slots : list (Slot T)) (ev : Event) :
  length (step promises slots ev) = length slots.
Proof.
  destruct ev as [j | j]; simpl.
  - apply length_alter.
  - destruct (promises !! j) as [[o | o |] |]; try reflexivity. apply length_alter.
Qed.

Lemma event_loop_length (ms : Z) (schedule : list Event) :
  length (event_loop promises ms schedule) = length promises.
Proof.
  unfold event_loop.
  assert (H : forall slots, length (fold_left (step promises) schedule slots) = length slots).
  { induction schedule as [|ev schedule IH]; intros slots; simpl; [reflexivity |].
    rewrite IH. apply step_length. }
  rewrite H. apply length_map.
Qed.

Lemma slot_events_coherent (i : nat) (p : Promise T) (schedule : list Event) :
  promises !! i = Some p -> Forall (coherent p) (slot_events promises i schedule).
Proof.
  intros Hp. unfold slot_events.
  induction schedule as [|ev schedule IH]; simpl; [constructor |].
  destruct (slot_event promises i ev) as [sev |] eqn:Hev; simpl; [| exact IH].
  constructor; [| exact IH].
  destruct ev as [j | j]; simpl in Hev; destruct (Nat.eqb i j); try discriminate.
  - injection Hev as <-. left; reflexivity.
  - rewrite Hp in Hev. destruct p as [o | o |]; try discriminate.
    injection Hev as <-. right. exists o. split; reflexivity.
Qed.

Lemma deadline_in_slot_events (i : nat) (schedule : list Event) :
  In (Deadline i) schedule -> In TimerDue (slot_events promises i schedule).
Proof.
  unfold slot_events. induction schedule as [|ev schedule IH]; simpl; [tauto |].
  intros [-> | Hin].
  - simpl. rewrite Nat.eqb_refl. left; reflexivity.
  - destruct (slot_event promises i ev); simpl; [right |]; apply IH, Hin.
Qed.

Lemma settle_all_Ret (ms : Z) (schedule : list Event) (outcomes : list (Settled T)) :
  settle_all promises ms schedule = Ret outcomes
  <-> Forall2 (fun s o => settled s = Some o) (event_loop promises ms schedule) outcomes.
Proof.
  unfold settle_all, allSettled. rewrite <- mapM_Some.
  destruct (mapM settled (event_loop promises ms schedule)); split; congruence.
Qed.

Lemma settle_all_never_throws (ms : Z) (schedule : list Event) (e : JsValue) :
  settle_all promises ms schedule <> Throw e.
Proof.
  unfold settle_all. destruct (allSettled (event_loop promises ms schedule)); discriminate.
Qed.

Lemma settle_all_length (ms : Z) (schedule : list Event) (outcomes : list (Settled T)) :
  settle_all promises ms schedule = Ret outcomes -> length outcomes = length promises.
Proof.
  rewrite settle_all_Ret. intros H.
  rewrite <- (Forall2_length _ _ _ H). apply event_loop_length.
Qed.

(** Entry [i] of the settled outcomes is what slot [i] settled with. *)
Lemma settle_all_lookup (ms : Z) (schedule : list Event) (outcomes : list (Settled T))
    (i : nat) (p : Promise T) :
  settle_all promises ms schedule = Ret outcomes ->
  promises !! i = Some p ->
  is_Some (outcomes !! i)
  /\ outcomes !! i = settled (slot_run p ms (slot_events promises i schedule)).
Proof.
  rewrite settle_all_Ret. intros H Hp.
  assert (Hs : event_loop promises ms schedule !! i
               = Some (slot_run p ms (slot_events promises i schedule)))
    by (rewrite event_loop_lookup, Hp; reflexivity).
  destruct (Forall2_lookup_l _ _ _ _ _ H Hs) as (o & Ho & Hso).
  rewrite Ho, Hso. split; [eexists |]; reflexivity.
Qed.

(** After every deadline, every slot has settled. *)
Lemma settle_all_total (ms : Z) (schedule : list Event) :
  deadlines_reached (length promises) schedule ->
  exists outcomes, settle_all promises ms schedule = Ret outcomes.
Proof.
  intros Hd. unfold settle_all, allSettled.
  destruct (mapM_is_Some_2 settled (event_loop promises ms schedule)) as [outs ->];
    [| eexists; reflexivity].
  apply Forall_lookup. intros i s Hs.
  rewrite event_loop_lookup in Hs.
  destruct (promises !! i) as [p |] eqn:Hp; [| discriminate].
  simpl in Hs. injection Hs as <-.
  apply slot_run_deadline, deadline_in_slot_events, Hd.
  apply lookup_lt_Some in Hp. exact Hp.
Qed.

End LoopFacts.

(** ** The report, entry by entry *)

Lemma readiness_with_Ret (promises : list (Promise CheckResult)) (ms : Z)
    (schedule : list Event) (rep : ReadinessReport) :
  readiness_with promises ms schedule = Ret rep ->
  exists outcomes,
    settle_all promises ms schedule = Ret outcomes /\ rep = report outcomes.
Proof.
  unfold readiness_with.
  destruct (settle_all promises ms schedule) as [outcomes | e |]; try discriminate.
  intros [= <-]. exists outcomes. split; reflexivity.
Qed.

Lemma readiness_with_never_throws (promises : list (Promise CheckResult)) (ms : Z)
    (schedule : list Event) (e : JsValue) :
  readiness_with promises ms schedule <> Throw e.
Proof.
  unfold readiness_with.
  pose proof (settle_all_never_throws promises ms schedule) as H.
  destruct (settle_all promises ms schedule) as [outcomes | e' |]; try discriminate.
  exfalso. apply (H e'). reflexivity.
Qed.

Lemma readiness_with_total (promises : list (Promise CheckResult)) (ms : Z)
    (schedule : list Event) :
  deadlines_reached (length promises) schedule ->
  exists rep, readiness_with promises ms schedule = Ret rep.
Proof.
  intros Hd. destruct (settle_all_total promises ms schedule Hd) as [outcomes Ho].
  unfold readiness_with. rewrite Ho. eexists; reflexivity.
Qed.

Lemma readiness_with_length (promises : list (Promise CheckResult)) (ms : Z)
    (schedule : list Event) (rep : ReadinessReport) :
  readiness_with promises ms schedule = Ret rep ->
  length (checks rep) = length promises.
Proof.
  intros H. destruct (readiness_with_Ret _ _ _ _ H) as (outcomes & Ho & ->).
  unfold report; simpl. rewrite length_map.
  apply (settle_all_length promises ms schedule outcomes Ho).
Qed.

(** Entry [i] of [checks] is [mapResult] of what slot [i] settled with. *)
Lemma readiness_with_lookup (promises : list (Promise CheckResult)) (ms : Z)
    (schedule : list Event) (rep : ReadinessReport) (i : nat) (p : Promise CheckResult) :
  readiness_with promises ms schedule = Ret rep ->
  promises !! i = Some p ->
  is_Some (checks rep !! i)
  /\ checks rep !! i
     = mapResult <$> settled (slot_run p ms (slot_events promises i schedule)).
Proof.
  intros H Hp. destruct (readiness_with_Ret _ _ _ _ H) as (outcomes & Ho & ->).
  destruct (settle_all_lookup promises ms schedule outcomes i p Ho Hp) as [[o Hi] Heq].
  unfold report; simpl.
  change (map mapResult outcomes) with (mapResult <$> outcomes).
  rewrite list_lookup_fmap, <- Heq, Hi. split; [eexists |]; reflexivity.
Qed.

Lemma timer_first_slot {T} (promises : list (Promise T)) (ms : Z)
    (schedule : list Event) (i : nat) :
  timer_fires_first promises i schedule ->
  exists p, promises !! i = Some p
    /\ settled (slot_run p ms (slot_events promises i schedule))
       = Some (Rejected (new_Error "timeout")).
Proof.
  intros [Hp [rest Hev]]. rewrite Hev.
  destruct Hp as [Hp | [o Hp]]; eexists; (split; [exact Hp |]);
    apply slot_run_timer_first; eauto.
Qed.

Lemma rejects_first_slot {T} (promises : list (Promise T)) (ms : Z)
    (schedule : list Event) (i : nat) (e : JsValue) :
  check_rejects_first promises i schedule e ->
  exists p, promises !! i = Some p
    /\ settled (slot_run p ms (slot_events promises i schedule)) = Some (Rejected e).
Proof.
  intros [Hp | [Hp [rest Hev]]]; eexists; (split; [exact Hp |]).
  - apply slot_run_settled_now.
  - rewrite Hev. apply slot_run_check_first.
Qed.

(** ** Timeouts *)

(** C2. When the timer of a slot fires before its check settles, the
    promise of the slot is rejected with an Error whose message is
    "timeout", [mapResult] turns that rejection into
    [{ name: "unknown", status: DEGRADED, error: "timeout" }], and this is
    the entry of the slot in the report, for any array of checks and in
    particular for the two checks of [readiness]. *)
Theorem timer_first_gives_timeout_result :
  forall (promises : list (Promise CheckResult)) (ms : Z) (schedule : list Event)
         (i : nat),
    timer_fires_first promises i schedule ->
    settled <$> event_loop promises ms schedule !! i
    = Some (Some (Rejected (new_Error "timeout")))
    /\ mapResult (Rejected (new_Error "timeout"))
       = {| name := "unknown"; status := DEGRADED; error := Some (JsString "timeout") |}
    /\ (forall rep,
          readiness_with promises ms schedule = Ret rep ->
          checks rep !! i
          = Some {| name := "unknown";
                    status := DEGRADED;
                    error := Some (JsString "timeout") |})
    /\ (forall env sb rep,
          promises = readiness_promises env sb ->
          readiness env sb schedule = Ret rep ->
          checks rep !! i
          = Some {| name := "unknown";
                    status := DEGRADED;
                    error := Some (JsString "timeout") |}).
Proof.
  intros promises ms schedule i Hfirst.
  assert (Hrep : forall ms' rep,
             readiness_with promises ms' schedule = Ret rep ->
             checks rep !! i = Some timeout_result).
  { intros ms' rep H.
    destruct (timer_first_slot promises ms' schedule i Hfirst) as (p & Hp & Hs).
    destruct (readiness_with_lookup _ _ _ _ i p H Hp) as [_ ->].
    rewrite Hs. reflexivity. }
  destruct (timer_first_slot promises ms schedule i Hfirst) as (p & Hp & Hs).
  split; [| split; [reflexivity | split]].
  - rewrite event_loop_lookup, Hp. simpl. rewrite Hs. reflexivity.
  - intros rep. apply Hrep.
  - intros env sb rep -> H. apply (Hrep TIMEOUT_MS rep H).
Qed.

Lemma timer_first_gives_timeout_result_witness :
  timer_fires_first (readiness_promises configured_env hanging_service) 1
    [Deadline 1; Settles 1]
  /\ readiness configured_env hanging_service [Deadline 1; Settles 1]
     = Ret {| ready := false;
              checks := [ {| name := "env"; status := OK; error := None |};
                          {| name := "unknown"; status := DEGRADED;
                             error := Some (JsString "timeout") |} ] |}
  /\ checks {| ready := false;
               checks := [ {| name := "env"; status := OK; error := None |};
                           {| name := "unknown"; status := DEGRADED;
                              error := Some (JsString "timeout") |} ] |} !! 1
     = Some {| name := "unknown"; status := DEGRADED; error := Some (JsString "timeout") |}.
Proof.
  assert (Hfirst : timer_fires_first (readiness_promises configured_env hanging_service) 1
                     [Deadline 1; Settles 1]).
  { split; [left; vm_compute; reflexivity | eexists; vm_compute; reflexivity]. }
  assert (Hrun : readiness configured_env hanging_service [Deadline 1; Settles 1]
                 = Ret {| ready := false;
                          checks := [ {| name := "env"; status := OK; error := None |};
                                      {| name := "unknown"; status := DEGRADED;
                                         error := Some (JsString "timeout") |} ] |})
    by (vm_compute; reflexivity).
  split; [exact Hfirst | split; [exact Hrun |]].
  destruct (timer_first_gives_timeout_result
              (readiness_promises configured_env hanging_service) TIMEOUT_MS
              [Deadline 1; Settles 1] 1 Hfirst) as (_ & _ & _ & Hready).
  apply (Hready configured_env hanging_service _ eq_refl Hrun).
Defined.

(** ** Rejections *)

Lemma mapResult_rejected (reason : JsValue) :
  mapResult (Rejected reason)
  = {| name := "unknown";
       status := DEGRADED;
       error := Some (if nullish (opt_get reason "message")
                      then JsString "failed"
                      else opt_get reason "message") |}.
Proof. reflexivity. Qed.

Lemma readiness_never_throws (env : Env) (sb : Supabase) (schedule : list Event)
    (e : JsValue) :
  readiness env sb schedule <> Throw e.
Proof. apply readiness_with_never_throws. Qed.

Lemma readiness_total (env : Env) (sb : Supabase) (schedule : list Event) :
  deadlines_reached 2 schedule -> exists rep, readiness env sb schedule = Ret rep.
Proof. apply (readiness_with_total (readiness_promises env sb)). Qed.

(** C3. When the check of a slot settles by rejecting before the timer
    fires, the promise of the slot is rejected with the same reason, and the
    entry of the slot in the report is
    [{ name: "unknown", status: DEGRADED, error }] where [error] is the
    [message] of the reason, or "failed" when the reason has none (the
    reason, or its message, is [null] or [undefined]). The runner does not
    throw, whatever the checks do: for any array of check promises and any
    schedule the call returns a report or is still waiting, and it has
    returned once every deadline has been reached. *)
Theorem rejection_is_captured :
  forall (promises : list (Promise CheckResult)) (ms : Z) (schedule : list Event),
    (forall i e,
        check_rejects_first promises i schedule e ->
        settled <$> event_loop promises ms schedule !! i = Some (Some (Rejected e))
        /\ forall rep,
            readiness_with promises ms schedule = Ret rep ->
            checks rep !! i
            = Some {| name := "unknown";
                      status := DEGRADED;
                      error := Some (if nullish (opt_get e "message")
                                     then JsString "failed"
                                     else opt_get e "message") |})
    /\ (forall e, readiness_with promises ms schedule <> Throw e)
    /\ (deadlines_reached (length promises) schedule ->
        exists rep, readiness_with promises ms schedule = Ret rep)
    /\ (forall env sb e, readiness env sb schedule <> Throw e)
    /\ (forall env sb,
          deadlines_reached 2 schedule -> exists rep, readiness env sb schedule = Ret rep).
Proof.
  intros promises ms schedule.
  split; [| split; [| split; [| split]]].
  - intros i e Hrej.
    destruct (rejects_first_slot promises ms schedule i e Hrej) as (p & Hp & Hs).
    split.
    + rewrite event_loop_lookup, Hp. simpl. rewrite Hs. reflexivity.
    + intros rep H.
      destruct (readiness_with_lookup _ _ _ _ i p H Hp) as [_ ->].
      rewrite Hs. reflexivity.
  - apply readiness_with_never_throws.
  - apply readiness_with_total.
  - intros env sb. apply readiness_never_throws.
  - intros env sb. apply readiness_total.
Qed.

Lemma two_deadlines : deadlines_reached 2 [Deadline 0; Deadline 1].
Proof.
  intros i Hi. destruct i as [|[|i]]; simpl; [auto | auto | lia].
Qed.

Lemma rejection_is_captured_witness :
  check_rejects_first
    [SettledNow (Fulfilled env_ok_result);
     SettlesLater (Rejected (new_Error "connection refused"))]
    1 [Settles 1; Deadline 0; Deadline 1] (new_Error "connection refused")
  /\ (exists rep,
        readiness_with [SettledNow (Fulfilled env_ok_result);
                        SettlesLater (Rejected (new_Error "connection refused"))]
          TIMEOUT_MS [Settles 1; Deadline 0; Deadline 1] = Ret rep
        /\ checks rep !! 1
           = Some {| name := "unknown";
                     status := DEGRADED;
                     error := Some (JsString "connection refused") |})
  /\ exists rep, readiness configured_env hanging_service [Deadline 0; Deadline 1] = Ret rep.
Proof.
  pose (promises := [SettledNow (Fulfilled env_ok_result);
                     SettlesLater (Rejected (new_Error "connection refused"))]).
  pose (schedule := [Settles 1; Deadline 0; Deadline 1]).
  assert (Hrej : check_rejects_first promises 1 schedule (new_Error "connection refused")).
  { right. split; [reflexivity | eexists; reflexivity]. }
  destruct (rejection_is_captured promises TIMEOUT_MS schedule)
    as (Hcap & _ & Htotal & _).
  destruct (Hcap 1 (new_Error "connection refused") Hrej) as (_ & Hrep).
  split; [exact Hrej | split].
  - destruct Htotal as [rep Hrun].
    + intros i Hi. destruct i as [|[|i]]; simpl in *; [auto | auto | lia].
    + exists rep. split; [exact Hrun | apply (Hrep rep Hrun)].
  - destruct (rejection_is_captured [] TIMEOUT_MS [Deadline 0; Deadline 1])
      as (_ & _ & _ & _ & Hready).
    apply Hready. exact two_deadlines.
Defined.

(** ** The two checks of readiness *)

Lemma promise_of_settles {A} (c : Async A) (o : Settled A) :
  promise_of c = SettledNow o \/ promise_of c = SettlesLater o ->
  (exists r, outcome c = Ret r /\ o = Fulfilled r)
  \/ (exists e, outcome c = Throw e /\ o = Rejected e).
Proof.
  unfold promise_of.
  destruct (outcome c) as [r | e |]; destruct (suspended c);
    intros [H | H]; try discriminate; injection H as <-; eauto.
Qed.

Lemma promise_of_checkEnv (env : Env) :
  exists r, outcome (checkEnv env) = Ret r
            /\ promise_of (checkEnv env) = SettledNow (Fulfilled r).
Proof.
  rewrite checkEnv_eq. eexists. split; reflexivity.
Qed.

Lemma checkSupabase_no_throw (env : Env) (sb : Supabase) (e : JsValue) :
  outcome (checkSupabase env sb) <> Throw e.
Proof.
  destruct (checkSupabase_paths env sb)
    as [(_ & ->) | (_ & _ & [(_ & _ & ->) | [(v & _ & _ & _ & _ & ->) | (err & log & _ & ->)]])];
    discriminate.
Qed.

Lemma event_loop_ext {T} (promises : list (Promise T)) (ms : Z)
    (schedule schedule' : list Event) :
  (forall i, slot_events promises i schedule' = slot_events promises i schedule) ->
  event_loop promises ms schedule' = event_loop promises ms schedule.
Proof.
  intros H. apply list_eq. intros i.
  rewrite !event_loop_lookup, H. reflexivity.
Qed.

Lemma two_entries {A} (l : list A) :
  length l = 2 -> exists a b, l = [a; b].
Proof.
  destruct l as [|a [|b [|c l]]]; simpl; intros H; try discriminate.
  exists a, b. reflexivity.
Qed.

(** What [readiness] puts at index 0 and at index 1. *)
Lemma readiness_entries (env : Env) (sb : Supabase) (schedule : list Event)
    (rep : ReadinessReport) :
  readiness env sb schedule = Ret rep ->
  exists r0 r1,
    checks rep = [r0; r1]
    /\ outcome (checkEnv env) = Ret r0
    /\ (outcome (checkSupabase env sb) = Ret r1 \/ r1 = timeout_result)
    /\ (forall r, promise_of (checkSupabase env sb) = SettledNow (Fulfilled r) -> r1 = r).
Proof.
  intros H. unfold readiness in H.
  pose proof (readiness_with_length _ _ _ _ H) as Hlen.
  destruct (two_entries _ Hlen) as (r0 & r1 & Hchecks).
  exists r0, r1. split; [exact Hchecks |].
  destruct (readiness_with_lookup _ _ _ _ 0 _ H eq_refl) as [_ H0].
  destruct (readiness_with_lookup _ _ _ _ 1 _ H eq_refl) as [_ H1].
  rewrite Hchecks in H0, H1. simpl in H0, H1.
  destruct (promise_of_checkEnv env) as (r & Hr & Hp).
  split; [| split].
  - rewrite Hp, slot_run_settled_now in H0. simpl in H0.
    injection H0 as ->. exact Hr.
  - destruct (settled (slot_run (promise_of (checkSupabase env sb)) TIMEOUT_MS
                (slot_events (readiness_promises env sb) 1 schedule))) as [o |] eqn:Ho;
      [| discriminate].
    simpl in H1. injection H1 as ->.
    apply slot_run_may_settle in Ho;
      [| apply (slot_events_coherent (readiness_promises env sb) 1); reflexivity].
    destruct Ho as [-> | Ho]; [right; reflexivity |].
    destruct (promise_of_settles _ _ Ho) as [(r' & Hr' & ->) | (e & He & _)].
    + left. exact Hr'.
    + exfalso. apply (checkSupabase_no_throw env sb e He).
  - intros r' Hnow. rewrite Hnow, slot_run_settled_now in H1. simpl in H1.
    injection H1 as ->. reflexivity.
Qed.

Lemma report_ready (outcomes : list (Settled CheckResult)) :
  ready (report outcomes)
  = every (fun c => status_eqb (status c) OK) (checks (report outcomes)).
Proof. reflexivity. Qed.

(** ** Order of the results *)

(** C4. For any array of [n] check promises the runner returns (once
    every deadline has been reached) a report with exactly [n] entries, and
    entry [i] is [mapResult] of what slot [i] settled with, which depends on
    check [i] and on the events of slot [i] alone: two schedules that
    interleave the same per-slot events differently give the same report.
    For [readiness] the report has two entries, the value [checkEnv]
    returned at index 0 and, at index 1, the value [checkSupabase] returned
    or the timeout result of its slot. *)
Theorem results_follow_input_order :
  forall (promises : list (Promise CheckResult)) (ms : Z) (schedule : list Event),
    (deadlines_reached (length promises) schedule ->
     exists rep, readiness_with promises ms schedule = Ret rep)
    /\ (forall rep,
          readiness_with promises ms schedule = Ret rep ->
          length (checks rep) = length promises
          /\ (forall i p,
                promises !! i = Some p ->
                checks rep !! i
                = mapResult <$> settled (slot_run p ms (slot_events promises i schedule)))
          /\ (forall schedule',
                (forall i, slot_events promises i schedule'
                           = slot_events promises i schedule) ->
                readiness_with promises ms schedule' = Ret rep))
    /\ (forall env sb rep,
          readiness env sb schedule = Ret rep ->
          exists r0 r1,
            checks rep = [r0; r1]
            /\ outcome (checkEnv env) = Ret r0
            /\ (outcome (checkSupabase env sb) = Ret r1
                \/ r1 = {| name := "unknown";
                           status := DEGRADED;
                           error := Some (JsString "timeout") |})).
Proof.
  intros promises ms schedule.
  split; [apply readiness_with_total | split].
  - intros rep H. split; [apply (readiness_with_length _ _ _ _ H) | split].
    + intros i p Hp. apply (readiness_with_lookup _ _ _ _ i p H Hp).
    + intros schedule' Hsame. unfold readiness_with, settle_all in *.
      rewrite (event_loop_ext promises ms schedule schedule' Hsame). exact H.
  - intros env sb rep H.
    destruct (readiness_entries env sb schedule rep H) as (r0 & r1 & H1 & H2 & H3 & _).
    exists r0, r1. auto.
Qed.

Lemma results_follow_input_order_witness :
  (exists rep,
      readiness_with (readiness_promises configured_env healthy_service) TIMEOUT_MS
        [Settles 1; Deadline 0; Deadline 1] = Ret rep
      /\ length (checks rep) = 2
      /\ readiness_with (readiness_promises configured_env healthy_service) TIMEOUT_MS
           [Deadline 0; Settles 1; Deadline 1] = Ret rep)
  /\ exists r0 r1,
       [ {| name := "env"; status := OK; error := None |};
         {| name := "supabase"; status := OK; error := None |} ] = [r0; r1]
       /\ outcome (checkEnv configured_env) = Ret r0
       /\ (outcome (checkSupabase configured_env healthy_service) = Ret r1
           \/ r1 = {| name := "unknown"; status := DEGRADED;
                      error := Some (JsString "timeout") |}).
Proof.
  destruct (results_follow_input_order
              (readiness_promises configured_env healthy_service) TIMEOUT_MS
              [Settles 1; Deadline 0; Deadline 1]) as (Htotal & Hrep & Hready).
  split.
  - destruct Htotal as [rep Hrun].
    { intros i Hi. destruct i as [|[|i]]; simpl in *; [auto | auto | lia]. }
    destruct (Hrep rep Hrun) as (Hlen & _ & Hsame).
    exists rep. split; [exact Hrun | split; [exact Hlen |]].
    apply Hsame. intros i. destruct i as [|[|i]]; vm_compute; reflexivity.
  - apply (Hready configured_env healthy_service
             {| ready := true;
                checks := [ {| name := "env"; status := OK; error := None |};
                            {| name := "supabase"; status := OK; error := None |} ] |}).
    vm_compute; reflexivity.
Defined.

(** ** The two guards agree *)

Lemma is_missing_env_falsy (env : Env) (key : string) :
  is_missing env key = env_falsy (env !! key).
Proof.
  unfold is_missing, env_falsy, env_length_is_zero.
  destruct (env !! key) as [s |]; [| reflexivity].
  destruct s; reflexivity.
Qed.

Lemma checkEnv_degraded_unset (env : Env) (r : CheckResult) :
  outcome (checkEnv env) = Ret r ->
  status r = DEGRADED <->
  unset env "SUPABASE_URL" \/ unset env "SUPABASE_SERVICE_ROLE_KEY".
Proof.
  rewrite checkEnv_eq. simpl. intros [= <-].
  rewrite <- !is_missing_unset.
  unfold missing_vars, requiredVars. simpl.
  destruct (is_missing env "SUPABASE_URL"), (is_missing env "SUPABASE_SERVICE_ROLE_KEY");
    simpl; split; intros H; try reflexivity; try discriminate; auto.
  destruct H; discriminate.
Qed.

Lemma readiness_ready (env : Env) (sb : Supabase) (schedule : list Event)
    (rep : ReadinessReport) :
  readiness env sb schedule = Ret rep ->
  ready rep = every (fun c => status_eqb (status c) OK) (checks rep).
Proof.
  intros H. destruct (readiness_with_Ret _ _ _ _ H) as (outcomes & _ & ->).
  apply report_ready.
Qed.

(** C10. [checkEnv] and [checkSupabase] test the same two variables in
    the same way (absent or empty). So whenever [checkEnv] returns DEGRADED,
    [checkSupabase] returns, without touching the client library or the
    network, the DEGRADED result "Supabase env not configured"; and in every
    readiness report whose entry 0 is degraded, entry 1 is that degraded
    result and [ready] is false. *)
Theorem env_degraded_implies_supabase_degraded :
  forall (env : Env) (sb : Supabase),
    (forall key, is_missing env key = env_falsy (env !! key))
    /\ (forall r,
          outcome (checkEnv env) = Ret r ->
          (status r = DEGRADED
           <-> env_falsy (env !! "SUPABASE_URL")
               || env_falsy (env !! "SUPABASE_SERVICE_ROLE_KEY") = true))
    /\ (forall r,
          outcome (checkEnv env) = Ret r -> status r = DEGRADED ->
          checkSupabase env sb
          = ([], Ret {| name := "supabase";
                        status := DEGRADED;
                        error := Some (JsString "Supabase env not configured") |}))
    /\ (forall schedule rep c0,
          readiness env sb schedule = Ret rep ->
          checks rep !! 0 = Some c0 -> status c0 = DEGRADED ->
          checks rep !! 1
          = Some {| name := "supabase";
                    status := DEGRADED;
                    error := Some (JsString "Supabase env not configured") |}
          /\ ready rep = false).
Proof.
  intros env sb.
  split; [apply is_missing_env_falsy |].
  split; [| split].
  - intros r Hr. rewrite (checkEnv_degraded_unset env r Hr).
    rewrite orb_true_iff, !env_falsy_unset. reflexivity.
  - intros r Hr Hs. apply checkSupabase_not_configured.
    apply (checkEnv_degraded_unset env r Hr). exact Hs.
  - intros schedule rep c0 Hrun H0 Hs.
    destruct (readiness_entries env sb schedule rep Hrun)
      as (r0 & r1 & Hchecks & Hr0 & _ & Hnow).
    rewrite (readiness_ready env sb schedule rep Hrun).
    rewrite Hchecks in H0 |- *. simpl in H0. injection H0 as ->.
    assert (Hcfg : checkSupabase env sb = ([], Ret supabase_not_configured)).
    { apply checkSupabase_not_configured.
      apply (checkEnv_degraded_unset env c0 Hr0). exact Hs. }
    assert (Hr1 : r1 = supabase_not_configured).
    { apply Hnow. rewrite Hcfg. reflexivity. }
    subst r1. split; [reflexivity |].
    simpl. rewrite Hs. reflexivity.
Qed.

Lemma env_degraded_implies_supabase_degraded_witness :
  checkSupabase (∅ : Env) healthy_service
  = ([], Ret {| name := "supabase";
                status := DEGRADED;
                error := Some (JsString "Supabase env not configured") |})
  /\ (exists rep,
        readiness (∅ : Env) healthy_service [Deadline 0; Deadline 1] = Ret rep
        /\ checks rep !! 1
           = Some {| name := "supabase";
                     status := DEGRADED;
                     error := Some (JsString "Supabase env not configured") |}
        /\ ready rep = false).
Proof.
  destruct (env_degraded_implies_supabase_degraded (∅ : Env) healthy_service)
    as (_ & _ & Hfun & Hrep).
  split.
  - apply (Hfun (env_missing_result ["SUPABASE_URL"; "SUPABASE_SERVICE_ROLE_KEY"]));
      vm_compute; reflexivity.
  - eexists. split; [vm_compute; reflexivity |].
    apply (Hrep [Deadline 0; Deadline 1] _
             (env_missing_result ["SUPABASE_URL"; "SUPABASE_SERVICE_ROLE_KEY"]));
      vm_compute; reflexivity.
Defined.

(** ** The error field *)

Lemma checkEnv_error_text (env : Env) (r : CheckResult) :
  outcome (checkEnv env) = Ret r -> absent_or_string (error r).
Proof.
  rewrite checkEnv_eq. simpl. intros [= <-].
  destruct (missing_vars env); [left; reflexivity | right; eexists; reflexivity].
Qed.

Lemma checkSupabase_error_text (env : Env) (sb : Supabase) (r : CheckResult) :
  failures_have_text sb ->
  outcome (checkSupabase env sb) = Ret r -> absent_or_string (error r).
Proof.
  intros Htext.
  destruct (checkSupabase_paths env sb)
    as [(_ & ->) | (_ & _ & [(_ & _ & ->) | [(v & _ & _ & _ & _ & ->) | (err & log & Hf & ->)]])];
    simpl; intros H; try discriminate; injection H as <-.
  - right. eexists; reflexivity.
  - left; reflexivity.
  - right. simpl. destruct (message_or_text err "Supabase unreachable" (Htext _ _ _ Hf)) as (s & ->).
    eexists; reflexivity.
Qed.

Lemma mapResult_error_text (reason : JsValue) :
  message_is_text reason -> absent_or_string (error (mapResult (Rejected reason))).
Proof.
  intros H. right. simpl.
  destruct (message_or_text reason "failed" H) as (s & ->). eexists; reflexivity.
Qed.

(** C8, with the proviso the code needs. [checkEnv] only ever produces
    no error or its own "Missing env vars" text. In [checkSupabase] and in
    [mapResult] the error is what [err?.message ?? fallback] evaluates to,
    which is a string whenever the message of the value caught is a string
    or is missing. Under that condition on the values the service can make
    [checkSupabase] catch, the [error] of every result it returns, and of
    every entry of every readiness report, is absent or a string. *)
Theorem error_is_absent_or_message :
  forall (env : Env) (sb : Supabase),
    (forall r, outcome (checkEnv env) = Ret r -> absent_or_string (error r))
    /\ (forall reason,
          error (mapResult (Rejected reason))
          = Some (coalesce (opt_get reason "message") (JsString "failed"))
          /\ (message_is_text reason ->
              absent_or_string (error (mapResult (Rejected reason)))))
    /\ (failures_have_text sb ->
        (forall r, outcome (checkSupabase env sb) = Ret r -> absent_or_string (error r))
        /\ (forall schedule rep c,
              readiness env sb schedule = Ret rep -> In c (checks rep) ->
              absent_or_string (error c))).
Proof.
  intros env sb.
  split; [apply checkEnv_error_text |].
  split.
  - intros reason. split; [reflexivity | apply mapResult_error_text].
  - intros Htext. split; [intros r; apply checkSupabase_error_text, Htext |].
    intros schedule rep c Hrun Hin.
    destruct (readiness_entries env sb schedule rep Hrun)
      as (r0 & r1 & Hchecks & Hr0 & Hr1 & _).
    rewrite Hchecks in Hin. destruct Hin as [<- | [<- | []]].
    + apply (checkEnv_error_text env r0 Hr0).
    + destruct Hr1 as [Hr1 | ->].
      * apply (checkSupabase_error_text env sb r1 Htext Hr1).
      * right. eexists; reflexivity.
Qed.

Lemma error_is_absent_or_message_witness :
  absent_or_string (error (mapResult (Rejected (new_Error "timeout"))))
  /\ absent_or_string (error (supabase_degraded (new_Error "connection refused")))
  /\ absent_or_string (error timeout_result).
Proof.
  destruct (error_is_absent_or_message configured_env refusing_service)
    as (_ & Hmap & Hsb).
  destruct (Hsb refusing_service_has_text) as (Hcheck & Hrep).
  split; [| split].
  - apply (Hmap (new_Error "timeout")). right; reflexivity.
  - apply Hcheck. vm_compute; reflexivity.
  - apply (Hrep [Deadline 1]
             {| ready := false; checks := [env_ok_result; timeout_result] |}).
    + vm_compute; reflexivity.
    + right; left; reflexivity.
Defined.

(** C8 as worded (the error is never an error object, only a string or
    absent) fails: when the response of the service carries an error whose
    [message] is itself an Error object, the readiness report holds that
    object in the [error] of the supabase entry. *)
Lemma readiness_error_can_be_an_object :
  readiness configured_env nested_error_service [Settles 1]
  = Ret {| ready := false;
           checks := [ {| name := "env"; status := OK; error := None |};
                       {| name := "supabase";
                          status := DEGRADED;
                          error := Some (new_Error "upstream") |} ] |}
  /\ ~ absent_or_string (Some (new_Error "upstream"))
  /\ ~ (forall (env : Env) (sb : Supabase) (schedule : list Event)
               (rep : ReadinessReport) (c : CheckResult),
           readiness env sb schedule = Ret rep -> In c (checks rep) ->
           absent_or_string (error c)).
Proof.
  assert (Hrun : readiness configured_env nested_error_service [Settles 1]
                 = Ret {| ready := false;
                          checks := [ {| name := "env"; status := OK; error := None |};
                                      {| name := "supabase";
                                         status := DEGRADED;
                                         error := Some (new_Error "upstream") |} ] |})
    by (vm_compute; reflexivity).
  assert (Hobj : ~ absent_or_string (Some (new_Error "upstream"))).
  { intros [H | (s & H)]; discriminate. }
  split; [exact Hrun | split; [exact Hobj |]].
  intros Hall. apply Hobj.
  apply (Hall _ _ _ _ {| name := "supabase"; status := DEGRADED;
                         error := Some (new_Error "upstream") |} Hrun).
  right; left; reflexivity.
Qed.


(** * Further properties of the code *)

(** ** withTimeout: one outcome per slot, no timer left behind *)

Lemma slot_events_app {T} (promises : list (Promise T)) (i : nat)
    (s1 s2 : list Event) :
  slot_events promises i (s1 ++ s2)%list
  = (slot_events promises i s1 ++ slot_events promises i s2)%list.
Proof. unfold slot_events. apply omap_app. Qed.

Lemma slot_run_app {T} (p : Promise T) (ms : Z) (e1 e2 : list (SlotEvent T)) :
  slot_run p ms (e1 ++ e2)%list = fold_left slot_step e2 (slot_run p ms e1).
Proof. unfold slot_run. apply fold_left_app. Qed.

Lemma event_loop_app_lookup {T} (promises : list (Promise T)) (ms : Z)
    (s1 s2 : list Event) (i : nat) :
  event_loop promises ms (s1 ++ s2)%list !! i
  = (fun s => fold_left slot_step (slot_events promises i s2) s)
      <$> event_loop promises ms s1 !! i.
Proof.
  rewrite !event_loop_lookup, slot_events_app.
  destruct (promises !! i) as [p |]; simpl; [| reflexivity].
  rewrite slot_run_app. reflexivity.
Qed.

(** X1. The promise returned by [withTimeout] settles once: when slot
    [i] has settled with [o] after some turns of the event loop, it still
    holds [o] after any further turns, whatever they deliver (a late answer
    of the check, a late deadline). *)
Theorem withTimeout_settles_once :
  forall (T : Type) (promises : list (Promise T)) (ms : Z)
         (before after : list Event) (i : nat) (o : Settled T),
    settled <$> event_loop promises ms before !! i = Some (Some o) ->
    settled <$> event_loop promises ms (before ++ after)%list !! i = Some (Some o).
Proof.
  intros T promises ms before after i o H.
  rewrite event_loop_app_lookup.
  destruct (event_loop promises ms before !! i) as [s |]; [| discriminate].
  simpl in *. injection H as H.
  rewrite (slot_steps_keep_settled _ s o H). reflexivity.
Qed.

Lemma withTimeout_settles_once_witness :
  settled <$> event_loop [SettlesLater (Fulfilled env_ok_result)] TIMEOUT_MS
                ([Deadline 0] ++ [Settles 0; Deadline 0])%list !! 0
  = Some (Some (Rejected (new_Error "timeout"))).
Proof.
  apply (withTimeout_settles_once CheckResult
           [SettlesLater (Fulfilled env_ok_result)] TIMEOUT_MS
           [Deadline 0] [Settles 0; Deadline 0] 0).
  reflexivity.
Defined.

Lemma settle_all_app {T} (promises : list (Promise T)) (ms : Z)
    (before after : list Event) (outcomes : list (Settled T)) :
  settle_all promises ms before = Ret outcomes ->
  settle_all promises ms (before ++ after)%list = Ret outcomes.
Proof.
  rewrite !settle_all_Ret. intros H.
  apply Forall2_same_length_lookup. split.
  - rewrite event_loop_length, <- (event_loop_length promises ms before).
    apply (Forall2_length _ _ _ H).
  - intros i s o Hs Ho.
    rewrite event_loop_app_lookup in Hs.
    destruct (event_loop promises ms before !! i) as [s0 |] eqn:Hs0; [| discriminate].
    simpl in Hs. injection Hs as <-.
    apply slot_steps_keep_settled.
    apply (Forall2_lookup_lr _ _ _ _ _ _ H Hs0 Ho).
Qed.

(** X2. A report is final: once [readiness] has returned a report under
    a schedule, every continuation of that schedule gives the same report.
    What a check answers after its slot has timed out cannot change what was
    reported. *)
Theorem readiness_report_is_final :
  forall (env : Env) (sb : Supabase) (before after : list Event)
         (rep : ReadinessReport),
    readiness env sb before = Ret rep ->
    readiness env sb (before ++ after)%list = Ret rep.
Proof.
  intros env sb before after rep H.
  destruct (readiness_with_Ret _ _ _ _ H) as (outcomes & Ho & ->).
  unfold readiness, readiness_with.
  rewrite (settle_all_app _ _ before after outcomes Ho). reflexivity.
Qed.

Lemma readiness_report_is_final_witness :
  readiness configured_env healthy_service ([Deadline 1] ++ [Settles 1])%list
  = Ret {| ready := false; checks := [env_ok_result; timeout_result] |}.
Proof.
  apply (readiness_report_is_final configured_env healthy_service
           [Deadline 1] [Settles 1]).
  vm_compute; reflexivity.
Defined.

Section TimerFacts.
Context {T : Type}.
Implicit Types (s : Slot T) (p : Promise T).

Lemma withTimeout_timer_inv p ms : timer_inv (withTimeout p ms).
Proof.
  unfold timer_inv. destruct p as [[r|e]|[r|e]|]; simpl; intros [o Ho];
    solve [reflexivity | discriminate].
Qed.

Lemma slot_step_timer_inv s ev : timer_inv s -> timer_inv (slot_step s ev).
Proof.
  unfold timer_inv. destruct s as [[o|] [ms|]]; simpl; intros H.
  - specialize (H (ex_intro _ o eq_refl)). discriminate.
  - destruct ev as [|[r|e]]; simpl; intros _; reflexivity.
  - destruct ev as [|[r|e]]; simpl; intros _; reflexivity.
  - destruct ev as [|[r|e]]; simpl; intros _; reflexivity.
Qed.

Lemma slot_steps_timer_inv evs s :
  timer_inv s -> timer_inv (fold_left slot_step evs s).
Proof.
  revert s. induction evs as [|ev evs IH]; intros s H; simpl; [exact H |].
  apply IH, slot_step_timer_inv, H.
Qed.

End TimerFacts.

(** X3. In every state the event loop reaches, the timer of a slot is
    armed exactly while its promise is pending: a settled slot holds no live
    timer (the callbacks clear it, and a fired timer is spent), and a slot
    without a live timer has settled. *)
Theorem timer_armed_iff_pending :
  forall (T : Type) (promises : list (Promise T)) (ms : Z) (schedule : list Event)
         (i : nat) (s : Slot T),
    event_loop promises ms schedule !! i = Some s ->
    (timer s = None <-> is_Some (settled s))
    /\ (timer s = Some ms <-> settled s = None).
Proof.
  intros T promises ms schedule i s Hs.
  rewrite event_loop_lookup in Hs.
  destruct (promises !! i) as [p |]; [| discriminate].
  simpl in Hs. injection Hs as <-.
  pose proof (slot_steps_inv (slot_events promises i schedule) _ (withTimeout_inv p ms)) as H1.
  pose proof (slot_steps_timer_inv (slot_events promises i schedule) _
                (withTimeout_timer_inv p ms)) as H2.
  fold (slot_run p ms (slot_events promises i schedule)) in H1, H2.
  assert (Harm : forall evs, timer (slot_run p ms evs) = None
                             \/ timer (slot_run p ms evs) = Some ms).
  { intros evs. unfold slot_run.
    assert (H0 : timer (withTimeout p ms) = None \/ timer (withTimeout p ms) = Some ms)
      by (destruct p as [[r|e]|[r|e]|]; simpl; auto).
    revert H0. generalize (withTimeout p ms) as s0.
    induction evs as [|ev evs IH]; intros s0 H0; simpl; [exact H0 |].
    apply IH. destruct s0 as [[o|] [m|]]; destruct ev as [|[r|e]]; simpl in *; auto. }
  unfold slot_inv in H1. unfold timer_inv in H2.
  destruct (Harm (slot_events promises i schedule)) as [Hn | Ha].
  - split; [split; auto |]. split.
    + rewrite Hn. discriminate.
    + intros Hp. destruct (H1 Hn) as [o Ho]. congruence.
  - split; split.
    + rewrite Ha. discriminate.
    + intros Hsome. rewrite (H2 Hsome) in Ha. discriminate.
    + intros _. destruct (settled (slot_run p ms (slot_events promises i schedule))) as [o |] eqn:Ho;
        [| reflexivity].
      rewrite (H2 (ex_intro _ o eq_refl)) in Ha. discriminate.
    + intros _. exact Ha.
Qed.

Lemma timer_armed_iff_pending_witness :
  (timer (mkSlot (Some (Fulfilled env_ok_result)) None) = None
   <-> is_Some (settled (mkSlot (Some (Fulfilled env_ok_result)) None)))
  /\ (timer (mkSlot (Some (Fulfilled env_ok_result)) None) = Some TIMEOUT_MS
      <-> settled (mkSlot (Some (Fulfilled env_ok_result)) None) = None).
Proof.
  apply (timer_armed_iff_pending CheckResult
           [SettlesLater (Fulfilled env_ok_result)] TIMEOUT_MS [Settles 0] 0).
  reflexivity.
Defined.

(** ** mapResult: values pass through, rejections degrade *)

Lemma fulfils_first_slot {T} (promises : list (Promise T)) (ms : Z)
    (schedule : list Event) (i : nat) (v : T) :
  check_fulfils_first promises i schedule v ->
  exists p, promises !! i = Some p
    /\ settled (slot_run p ms (slot_events promises i schedule)) = Some (Fulfilled v).
Proof.
  intros [Hp | [Hp [rest Hev]]]; eexists; (split; [exact Hp |]).
  - apply slot_run_settled_now.
  - rewrite Hev. apply slot_run_check_first.
Qed.

(** X4. When the check of a slot fulfils before the timer fires, the
    entry of the slot in the report is the value the check returned, as it
    is: [mapResult] does not touch it, and a deadline reached afterwards does
    not replace it. *)
Theorem fulfilled_check_is_reported_verbatim :
  forall (promises : list (Promise CheckResult)) (ms : Z) (schedule : list Event)
         (i : nat) (v : CheckResult) (rep : ReadinessReport),
    check_fulfils_first promises i schedule v ->
    readiness_with promises ms schedule = Ret rep ->
    checks rep !! i = Some v.
Proof.
  intros promises ms schedule i v rep Hfirst Hrun.
  destruct (fulfils_first_slot promises ms schedule i v Hfirst) as (p & Hp & Hs).
  destruct (readiness_with_lookup _ _ _ _ i p Hrun Hp) as [_ ->].
  rewrite Hs. reflexivity.
Qed.

Lemma fulfilled_check_is_reported_verbatim_witness :
  checks {| ready := true; checks := [env_ok_result; supabase_ok_result] |} !! 1
  = Some supabase_ok_result.
Proof.
  apply (fulfilled_check_is_reported_verbatim
           (readiness_promises configured_env healthy_service) TIMEOUT_MS
           [Settles 1; Deadline 1] 1 supabase_ok_result).
  - right. split; [vm_compute; reflexivity | eexists; vm_compute; reflexivity].
  - vm_compute; reflexivity.
Defined.

Lemma every_false_at {A} (p : A -> bool) (xs : list A) (i : nat) (x : A) :
  xs !! i = Some x -> p x = false -> every p xs = false.
Proof.
  revert i. induction xs as [|y ys IH]; intros i Hi Hx; [discriminate |].
  destruct i as [|i]; simpl in *.
  - injection Hi as ->. rewrite Hx. reflexivity.
  - destruct (p y); [apply (IH i Hi Hx) | reflexivity].
Qed.

(** X5. One slot that did not fulfil is enough for [ready] to be false:
    if any slot of the runner ends rejected (its check rejected, or its
    timer fired first), the report says [ready: false], whatever the other
    checks returned. *)
Theorem rejected_slot_means_not_ready :
  forall (promises : list (Promise CheckResult)) (ms : Z) (schedule : list Event)
         (i : nat) (reason : JsValue) (rep : ReadinessReport),
    settled <$> event_loop promises ms schedule !! i = Some (Some (Rejected reason)) ->
    readiness_with promises ms schedule = Ret rep ->
    ready rep = false.
Proof.
  intros promises ms schedule i reason rep Hslot Hrun.
  destruct (readiness_with_Ret _ _ _ _ Hrun) as (outcomes & Ho & ->).
  rewrite report_ready.
  apply settle_all_Ret in Ho.
  destruct (event_loop promises ms schedule !! i) as [s |] eqn:Hs; [| discriminate].
  simpl in Hslot. injection Hslot as Hslot.
  destruct (Forall2_lookup_l _ _ _ _ _ Ho Hs) as (o & Hoi & Hso).
  assert (o = Rejected reason) by congruence. subst o.
  apply (every_false_at _ _ i (mapResult (Rejected reason))); [| reflexivity].
  unfold report; simpl.
  change (map mapResult outcomes) with (mapResult <$> outcomes).
  rewrite list_lookup_fmap, Hoi. reflexivity.
Qed.

Lemma rejected_slot_means_not_ready_witness :
  ready {| ready := false; checks := [env_ok_result; timeout_result] |} = false.
Proof.
  apply (rejected_slot_means_not_ready
           (readiness_promises configured_env healthy_service) TIMEOUT_MS
           [Deadline 1] 1 (new_Error "timeout")).
  - vm_compute; reflexivity.
  - vm_compute; reflexivity.
Defined.



(** ** checkEnv and checkSupabase, case by case *)

(** X7. With exactly one of the two variables missing (absent or
    empty), [checkEnv] names that variable alone: the error is
    "Missing env vars: SUPABASE_URL", respectively
    "Missing env vars: SUPABASE_SERVICE_ROLE_KEY", with no separator. *)
Theorem checkEnv_single_missing :
  forall env : Env,
    (unset env "SUPABASE_URL" -> ~ unset env "SUPABASE_SERVICE_ROLE_KEY" ->
     checkEnv env
     = ([], Ret {| name := "env";
                   status := DEGRADED;
                   error := Some (JsString "Missing env vars: SUPABASE_URL") |}))
    /\ (~ unset env "SUPABASE_URL" -> unset env "SUPABASE_SERVICE_ROLE_KEY" ->
        checkEnv env
        = ([], Ret {| name := "env";
                      status := DEGRADED;
                      error := Some (JsString
                        "Missing env vars: SUPABASE_SERVICE_ROLE_KEY") |})).
Proof.
  intros env. rewrite checkEnv_eq. unfold missing_vars, requiredVars. simpl.
  split; intros H1 H2.
  - apply is_missing_unset in H1. rewrite H1.
    destruct (is_missing env "SUPABASE_SERVICE_ROLE_KEY") eqn:Hk.
    + exfalso. apply H2, is_missing_unset, Hk.
    + reflexivity.
  - apply is_missing_unset in H2. rewrite H2.
    destruct (is_missing env "SUPABASE_URL") eqn:Hu.
    + exfalso. apply H1, is_missing_unset, Hu.
    + reflexivity.
Qed.

Lemma checkEnv_single_missing_witness :
  checkEnv (<["SUPABASE_URL" := ""]> configured_env)
  = ([], Ret {| name := "env";
                status := DEGRADED;
                error := Some (JsString "Missing env vars: SUPABASE_URL") |})
  /\ checkEnv (delete "SUPABASE_SERVICE_ROLE_KEY" configured_env)
     = ([], Ret {| name := "env";
                   status := DEGRADED;
                   error := Some (JsString
                     "Missing env vars: SUPABASE_SERVICE_ROLE_KEY") |}).
Proof.
  split.
  - apply (checkEnv_single_missing (<["SUPABASE_URL" := ""]> configured_env)).
    + right. vm_compute; reflexivity.
    + intros [H | H]; vm_compute in H; discriminate.
  - apply (checkEnv_single_missing (delete "SUPABASE_SERVICE_ROLE_KEY" configured_env)).
    + intros [H | H]; vm_compute in H; discriminate.
    + left. vm_compute; reflexivity.
Defined.

Lemma configured_guard (env : Env) :
  configured env ->
  env_falsy (env !! "SUPABASE_URL")
  || env_falsy (env !! "SUPABASE_SERVICE_ROLE_KEY") = false.
Proof.
  intros [Hu Hk]. apply orb_false_iff.
  split; apply not_true_is_false; rewrite env_falsy_unset; assumption.
Qed.

Lemma configured_dec (env : Env) :
  configured env
  \/ unset env "SUPABASE_URL" \/ unset env "SUPABASE_SERVICE_ROLE_KEY".
Proof.
  unfold configured. rewrite <- !env_falsy_unset.
  destruct (env_falsy (env !! "SUPABASE_URL")),
           (env_falsy (env !! "SUPABASE_SERVICE_ROLE_KEY"));
    solve [auto | left; split; discriminate].
Qed.

(** The operations [checkSupabase] performs, in order. *)
Lemma checkSupabase_effects_eq (env : Env) (sb : Supabase) :
  configured env ->
  effects (checkSupabase env sb)
  = match createClient sb (env_url env) (env_key env) with
    | Some _ => [EffCreateClient (env_url env) (env_key env)]
    | None =>
        match query sb (env_url env) (env_key env) with
        | Throws _ => [EffCreateClient (env_url env) (env_key env)]
        | _ => [EffCreateClient (env_url env) (env_key env); EffQuery; EffAwait]
        end
    end.
Proof.
  intros Hc. unfold checkSupabase. rewrite (configured_guard env Hc).
  fold (env_url env) (env_key env).
  unfold call_createClient, await_query, destructure_error.
  destruct (createClient sb (env_url env) (env_key env)) as [e |]; [reflexivity |].
  destruct (query sb (env_url env) (env_key env)) as [e0 | v | e |];
    [reflexivity | | reflexivity | reflexivity].
  simpl. destruct (nullish v); simpl; [reflexivity |].
  destruct (truthy (get v "error")); reflexivity.
Qed.

(** X8. What [checkSupabase] does to the outside. With a variable
    missing it does nothing at all. Otherwise it builds the client once, with
    the values of SUPABASE_URL and SUPABASE_SERVICE_ROLE_KEY as they are in
    the environment. If [createClient] throws, or the chain of calls that
    builds the request throws, it stops there: nothing is sent and nothing is
    awaited. Otherwise it sends exactly one request and awaits it. It never
    sends a second request, whatever the first one answers. *)
Theorem checkSupabase_effects :
  forall (env : Env) (sb : Supabase),
    (unset env "SUPABASE_URL" \/ unset env "SUPABASE_SERVICE_ROLE_KEY" ->
     effects (checkSupabase env sb) = [])
    /\ (forall url key,
          env !! "SUPABASE_URL" = Some url ->
          env !! "SUPABASE_SERVICE_ROLE_KEY" = Some key ->
          url <> "" -> key <> "" ->
          (forall e, createClient sb url key = Some e ->
                     effects (checkSupabase env sb) = [EffCreateClient url key])
          /\ (forall e, createClient sb url key = None ->
                        query sb url key = Throws e ->
                        effects (checkSupabase env sb) = [EffCreateClient url key])
          /\ (createClient sb url key = None ->
              (forall e, query sb url key <> Throws e) ->
              effects (checkSupabase env sb)
              = [EffCreateClient url key; EffQuery; EffAwait]))
    /\ length (List.filter (fun eff => match eff with EffQuery => true | _ => false end)
                 (effects (checkSupabase env sb))) <= 1.
Proof.
  intros env sb. split; [| split].
  - intros H. rewrite (checkSupabase_not_configured env sb H). reflexivity.
  - intros url key Hu Hk Hune Hkne.
    assert (Hc : configured env).
    { split; apply not_unset_present; eauto. }
    pose proof (checkSupabase_effects_eq env sb Hc) as Heff.
    unfold env_url, env_key in Heff. rewrite Hu, Hk in Heff. simpl in Heff.
    split; [| split].
    + intros e He. rewrite He in Heff. exact Heff.
    + intros e Hn Hq. rewrite Hn, Hq in Heff. exact Heff.
    + intros Hn Hq. rewrite Hn in Heff.
      destruct (query sb url key) as [e0 | v | e |]; try exact Heff.
      exfalso. apply (Hq e0). reflexivity.
  - destruct (configured_dec env) as [Hc | Hn].
    + rewrite (checkSupabase_effects_eq env sb Hc).
      destruct (createClient sb (env_url env) (env_key env)); [simpl; lia |].
      destruct (query sb (env_url env) (env_key env)); simpl; lia.
    + rewrite (checkSupabase_not_configured env sb Hn). simpl. lia.
Qed.

Lemma checkSupabase_effects_witness :
  effects (checkSupabase (∅ : Env) healthy_service) = []
  /\ effects (checkSupabase configured_env throwing_builder_service)
     = [EffCreateClient "https://db.example.test" "service-role-key"]
  /\ effects (checkSupabase configured_env healthy_service)
     = [EffCreateClient "https://db.example.test" "service-role-key"; EffQuery; EffAwait].
Proof.
  destruct (checkSupabase_effects (∅ : Env) healthy_service) as (Hnone & _).
  destruct (checkSupabase_effects configured_env throwing_builder_service)
    as (_ & Hthrow & _).
  destruct (checkSupabase_effects configured_env healthy_service) as (_ & Hcfg & _).
  split; [| split].
  - apply Hnone. left; left; reflexivity.
  - assert (Hu : configured_env !! "SUPABASE_URL" = Some "https://db.example.test")
      by (vm_compute; reflexivity).
    assert (Hk : configured_env !! "SUPABASE_SERVICE_ROLE_KEY" = Some "service-role-key")
      by (vm_compute; reflexivity).
    destruct (Hthrow _ _ Hu Hk ltac:(discriminate) ltac:(discriminate)) as (_ & Hb & _).
    apply (Hb (new_TypeError "supabase.from is not a function")); reflexivity.
  - assert (Hu : configured_env !! "SUPABASE_URL" = Some "https://db.example.test")
      by (vm_compute; reflexivity).
    assert (Hk : configured_env !! "SUPABASE_SERVICE_ROLE_KEY" = Some "service-role-key")
      by (vm_compute; reflexivity).
    destruct (Hcfg _ _ Hu Hk ltac:(discriminate) ltac:(discriminate)) as (_ & _ & Hq).
    apply Hq; [reflexivity | discriminate].
Defined.

Lemma checkSupabase_ok_cases (env : Env) (sb : Supabase) :
  ((exists r, outcome (checkSupabase env sb) = Ret r /\ status r = OK)
   <-> configured env /\ probe_healthy sb (env_url env) (env_key env))
  /\ (forall r, outcome (checkSupabase env sb) = Ret r -> status r = OK ->
                r = supabase_ok_result).
Proof.
  pose proof (checkSupabase_paths env sb) as Hp. cbv zeta in Hp.
  fold (env_url env) (env_key env) in Hp.
  split; [split |].
  - intros (r & Hr & Hs).
    destruct Hp as [(_ & Heq) | (Hu & Hk & [(_ & _ & Heq) | [(v & Hc & Hq & Hn & Ht & Heq) | (err & log & _ & Heq)]])];
      rewrite Heq in Hr; simpl in Hr; try discriminate; injection Hr as <-;
      try discriminate.
    split; [split; assumption |]. split; [exact Hc |]. exists v. auto.
  - intros ([Hu Hk] & Hc & v & Hq & Hn & Ht).
    destruct Hp as [([H | H] & _) | (_ & _ & [(_ & Hq' & _) | [(v' & _ & _ & _ & _ & Heq) | (err & log & Hf & _)]])];
      try contradiction.
    + congruence.
    + exists supabase_ok_result. rewrite Heq. split; reflexivity.
    + exfalso. unfold supabase_failure in Hf.
      destruct Hf as [H | (_ & [H | [H | (v' & H & [(N & _) | (N & E & Tr)])]])]; congruence.
  - intros r Hr Hs.
    destruct Hp as [(_ & Heq) | (_ & _ & [(_ & _ & Heq) | [(v & _ & _ & _ & _ & Heq) | (err & log & _ & Heq)]])];
      rewrite Heq in Hr; simpl in Hr; try discriminate; injection Hr as <-;
      try discriminate.
    reflexivity.
Qed.

Lemma checkSupabase_hang_cases (env : Env) (sb : Supabase) :
  outcome (checkSupabase env sb) = Hang
  <-> configured env /\ probe_hangs sb (env_url env) (env_key env).
Proof.
  pose proof (checkSupabase_paths env sb) as Hp. cbv zeta in Hp.
  fold (env_url env) (env_key env) in Hp.
  split.
  - intros Hh.
    destruct Hp as [(_ & Heq) | (Hu & Hk & [(Hc & Hq & _) | [(v & _ & _ & _ & _ & Heq) | (err & log & _ & Heq)]])];
      try (rewrite Heq in Hh; discriminate).
    split; split; assumption.
  - intros ([Hu Hk] & Hc & Hq).
    destruct Hp as [([H | H] & _) | (_ & _ & [(_ & _ & Heq) | [(v & _ & Hq' & _) | (err & log & Hf & _)]])];
      try contradiction.
    + rewrite Heq. reflexivity.
    + congruence.
    + exfalso. unfold supabase_failure in Hf.
      destruct Hf as [H | (_ & [H | [H | (v' & H & _)]])]; congruence.
Qed.

(** X9. [checkSupabase] answers OK in one situation only: both
    variables are set, [createClient] does not throw, and the awaited ping
    resolves with a value that can be destructured and whose [error] is
    falsy. Then, and only then, its result is
    [{ name: "supabase", status: OK }]. *)
Theorem checkSupabase_ok_iff :
  forall (env : Env) (sb : Supabase),
    ((exists r, outcome (checkSupabase env sb) = Ret r /\ status r = OK)
     <-> configured env /\ probe_healthy sb (env_url env) (env_key env))
    /\ (forall r, outcome (checkSupabase env sb) = Ret r -> status r = OK ->
                  r = {| name := "supabase"; status := OK; error := None |}).
Proof. intros env sb. apply checkSupabase_ok_cases. Qed.

Lemma checkSupabase_ok_iff_witness :
  supabase_ok_result = {| name := "supabase"; status := OK; error := None |}.
Proof.
  destruct (checkSupabase_ok_iff configured_env healthy_service) as [_ Hok].
  apply Hok.
  - vm_compute; reflexivity.
  - reflexivity.
Defined.

(** X10. [checkSupabase] stays suspended for ever in one situation
    only: both variables are set, the client is built, and the awaited ping
    never answers. Nothing inside the check bounds that wait. *)
Theorem checkSupabase_hangs_iff :
  forall (env : Env) (sb : Supabase),
    outcome (checkSupabase env sb) = Hang
    <-> configured env /\ probe_hangs sb (env_url env) (env_key env).
Proof. intros env sb. apply checkSupabase_hang_cases. Qed.

(** ** When readiness returns, and with what *)

Lemma slot_settled_iff {T} (p : Promise T) (ms : Z) (evs : list (SlotEvent T)) :
  is_Some (settled (slot_run p ms evs)) <-> (exists o, p = SettledNow o) \/ evs <> [].
Proof.
  split.
  - intros Hs. destruct p as [o | o |]; [left; eexists; reflexivity | |];
      (destruct evs as [|ev evs]; [destruct Hs as [x Hx]; discriminate | right; discriminate]).
  - intros [[o ->] | Hne].
    + rewrite slot_run_settled_now. eexists; reflexivity.
    + destruct p as [o | o |]; [rewrite slot_run_settled_now; eexists; reflexivity | |];
        (destruct evs as [|ev evs]; [contradiction |]);
        unfold slot_run; simpl;
        (destruct ev as [|[r|e]]; simpl;
         eexists; apply slot_steps_keep_settled; reflexivity).
Qed.

Lemma slot_events_nonempty {T} (promises : list (Promise T)) (i : nat)
    (schedule : list Event) :
  slot_events promises i schedule <> []
  <-> In (Deadline i) schedule
      \/ ((exists o, promises !! i = Some (SettlesLater o)) /\ In (Settles i) schedule).
Proof.
  unfold slot_events. induction schedule as [|ev schedule IH]; simpl.
  - split; [congruence | intros [[] | [_ []]]].
  - destruct (slot_event promises i ev) as [sev |] eqn:Hev; simpl.
    + split; [intros _ | discriminate].
      destruct ev as [j | j]; simpl in Hev; destruct (Nat.eqb_spec i j) as [-> | Hne];
        try discriminate.
      * left; left; reflexivity.
      * right. destruct (promises !! j) as [[o | o |] |]; try discriminate.
        split; [eexists; reflexivity | left; reflexivity].
    + rewrite IH. split.
      * intros [H | [Ho H]]; [left; right; exact H | right; split; [exact Ho | right; exact H]].
      * intros [[H | H] | [Ho [H | H]]].
        -- subst ev. simpl in Hev. rewrite Nat.eqb_refl in Hev. discriminate.
        -- left; exact H.
        -- subst ev. simpl in Hev. rewrite Nat.eqb_refl in Hev.
           destruct Ho as [o Ho]. rewrite Ho in Hev. discriminate.
        -- right. split; assumption.
Qed.

Lemma settle_all_returns_iff {T} (promises : list (Promise T)) (ms : Z)
    (schedule : list Event) :
  (exists outcomes, settle_all promises ms schedule = Ret outcomes)
  <-> forall i p, promises !! i = Some p ->
                  is_Some (settled (slot_run p ms (slot_events promises i schedule))).
Proof.
  unfold settle_all, allSettled. split.
  - intros [outcomes H] i p Hp.
    destruct (mapM settled (event_loop promises ms schedule)) as [outs |] eqn:Hm;
      [| discriminate].
    assert (Hall : Forall (is_Some ∘ settled) (event_loop promises ms schedule))
      by (apply mapM_is_Some_1; eexists; exact Hm).
    rewrite Forall_lookup in Hall.
    apply (Hall i). rewrite event_loop_lookup, Hp. reflexivity.
  - intros Hall.
    destruct (mapM_is_Some_2 settled (event_loop promises ms schedule)) as [outs ->];
      [| eexists; reflexivity].
    apply Forall_lookup. intros i s Hs.
    rewrite event_loop_lookup in Hs.
    destruct (promises !! i) as [p |] eqn:Hp; [| discriminate].
    simpl in Hs. injection Hs as <-. apply (Hall i p Hp).
Qed.

Lemma readiness_with_returns_iff (promises : list (Promise CheckResult)) (ms : Z)
    (schedule : list Event) :
  (exists rep, readiness_with promises ms schedule = Ret rep)
  <-> exists outcomes, settle_all promises ms schedule = Ret outcomes.
Proof.
  unfold readiness_with.
  destruct (settle_all promises ms schedule) as [outs | e |]; split;
    intros [x Hx]; try discriminate; eexists; reflexivity.
Qed.

Lemma readiness_with_Hang_iff (promises : list (Promise CheckResult)) (ms : Z)
    (schedule : list Event) :
  readiness_with promises ms schedule = Hang
  <-> ~ exists rep, readiness_with promises ms schedule = Ret rep.
Proof.
  pose proof (readiness_with_never_throws promises ms schedule) as Hnt.
  destruct (readiness_with promises ms schedule) as [rep | e |].
  - split; [discriminate | intros H; exfalso; apply H; eexists; reflexivity].
  - exfalso. apply (Hnt e). reflexivity.
  - split; [intros _ [rep H]; discriminate | reflexivity].
Qed.

(** How the promise of [checkSupabase] stands when the caller gets it. *)
Lemma promise_of_checkSupabase_cases (env : Env) (sb : Supabase) :
  ((unset env "SUPABASE_URL" \/ unset env "SUPABASE_SERVICE_ROLE_KEY")
   /\ promise_of (checkSupabase env sb) = SettledNow (Fulfilled supabase_not_configured))
  \/ (configured env
      /\ ((exists e, probe_fails_early sb (env_url env) (env_key env) e
                     /\ promise_of (checkSupabase env sb)
                        = SettledNow (Fulfilled (supabase_degraded e)))
          \/ (probe_hangs sb (env_url env) (env_key env)
              /\ promise_of (checkSupabase env sb) = NeverSettles)
          \/ (probe_answers sb (env_url env) (env_key env)
              /\ exists r, promise_of (checkSupabase env sb) = SettlesLater (Fulfilled r)))).
Proof.
  destruct (configured_dec env) as [Hc | Hn].
  - right. split; [exact Hc |].
    unfold promise_of, suspended. rewrite (checkSupabase_effects_eq env sb Hc).
    unfold outcome, checkSupabase. rewrite (configured_guard env Hc).
    fold (env_url env) (env_key env).
    unfold call_createClient, await_query, destructure_error,
      probe_hangs, probe_fails_early, probe_answers.
    destruct (createClient sb (env_url env) (env_key env)) as [e |].
    + left. exists e. split; [left; reflexivity | reflexivity].
    + destruct (query sb (env_url env) (env_key env)) as [e0 | v | e |].
      * left. exists e0. split; [right; split; reflexivity | reflexivity].
      * right; right. split; [split; [reflexivity | left; eexists; reflexivity] |].
        simpl. destruct (nullish v); simpl; [eexists; reflexivity |].
        destruct (truthy (get v "error")); eexists; reflexivity.
      * right; right. split; [split; [reflexivity | right; eexists; reflexivity] |].
        eexists; reflexivity.
      * right; left. split; [split; reflexivity | reflexivity].
  - left. split; [exact Hn |].
    rewrite (checkSupabase_not_configured env sb Hn). reflexivity.
Qed.

Lemma readiness_returns_cases (env : Env) (sb : Supabase) (schedule : list Event) :
  (exists rep, readiness env sb schedule = Ret rep)
  <-> (exists o, promise_of (checkSupabase env sb) = SettledNow o)
      \/ In (Deadline 1) schedule
      \/ ((exists o, promise_of (checkSupabase env sb) = SettlesLater o)
          /\ In (Settles 1) schedule).
Proof.
  unfold readiness.
  rewrite readiness_with_returns_iff, settle_all_returns_iff.
  split.
  - intros Hall. specialize (Hall 1 _ eq_refl).
    apply slot_settled_iff in Hall. destruct Hall as [H | H]; [left; exact H | right].
    apply slot_events_nonempty in H.
    destruct H as [H | [[o Ho] H]]; [left; exact H | right].
    split; [| exact H]. exists o. simpl in Ho. congruence.
  - intros H i p Hp. destruct i as [|[|i]]; simpl in Hp; try discriminate;
      injection Hp as <-.
    + destruct (promise_of_checkEnv env) as (r & _ & ->).
      rewrite slot_run_settled_now. eexists; reflexivity.
    + apply slot_settled_iff. destruct H as [H | H]; [left; exact H | right].
      apply slot_events_nonempty.
      destruct H as [H | [[o Ho] H]]; [left; exact H | right].
      split; [| exact H]. exists o. simpl. congruence.
Qed.

(** X11. [readiness] returns exactly when the supabase slot has
    settled, and the env slot never delays it. It has returned as soon as one
    of these holds: a variable is missing, or [createClient] or the chain
    that builds the request throws (in these cases the check never
    suspends); the deadline of the supabase slot has been reached; the
    request was sent, the ping has answered (by resolving or rejecting) and
    the check has settled. In any other situation the call is still pending,
    and it does not throw. *)
Theorem readiness_returns_iff :
  forall (env : Env) (sb : Supabase) (schedule : list Event),
    ((exists rep, readiness env sb schedule = Ret rep)
     <-> (unset env "SUPABASE_URL" \/ unset env "SUPABASE_SERVICE_ROLE_KEY")
         \/ (exists e, probe_fails_early sb (env_url env) (env_key env) e)
         \/ In (Deadline 1) schedule
         \/ (probe_answers sb (env_url env) (env_key env) /\ In (Settles 1) schedule))
    /\ (readiness env sb schedule = Hang
        <-> ~ exists rep, readiness env sb schedule = Ret rep).
Proof.
  intros env sb schedule. split; [| apply readiness_with_Hang_iff].
  rewrite readiness_returns_cases.
  destruct (promise_of_checkSupabase_cases env sb)
    as [(Hn & Hp) | (Hc & [(e & He & Hp) | [((Hcc & Hq) & Hp) | ((Hcc & Hq) & r & Hp)]])];
    rewrite Hp.
  - split; intros _; [left; exact Hn | left; eexists; reflexivity].
  - split; intros _; [right; left; eexists; exact He | left; eexists; reflexivity].
  - split.
    + intros [[o H] | [H | [[o H] _]]]; try discriminate. right; right; left; exact H.
    + intros [H | [[e [H | [_ H]]] | [H | [[_ [[v H] | [e H]]] _]]]];
        try congruence.
      * exfalso. destruct Hc as [Hu Hk]. destruct H; contradiction.
      * right; left; exact H.
  - split.
    + intros [[o H] | [H | [_ H]]]; try discriminate.
      * right; right; left; exact H.
      * right; right; right. split; [split; assumption | exact H].
    + intros [H | [[e [H | [_ H]]] | [H | [_ H]]]].
      * exfalso. destruct Hc as [Hu Hk]. destruct H; contradiction.
      * congruence.
      * exfalso. destruct Hq as [[v Hv] | [e' He']]; congruence.
      * right; left; exact H.
      * right; right. split; [eexists; reflexivity | exact H].
Qed.

Lemma readiness_returns_iff_witness :
  (exists rep, readiness (∅ : Env) hanging_service [] = Ret rep)
  /\ (exists rep, readiness configured_env throwing_builder_service [] = Ret rep)
  /\ readiness configured_env hanging_service [Settles 1] = Hang.
Proof.
  destruct (readiness_returns_iff (∅ : Env) hanging_service []) as [[_ Hret] _].
  destruct (readiness_returns_iff configured_env throwing_builder_service [])
    as [[_ Hearly] _].
  destruct (readiness_returns_iff configured_env hanging_service [Settles 1])
    as [[Honly _] [_ Hhang]].
  split; [| split].
  - apply Hret. left; left; left; reflexivity.
  - apply Hearly. right; left.
    exists (new_TypeError "supabase.from is not a function").
    right. split; reflexivity.
  - apply Hhang. intros Hrep.
    destruct (Honly Hrep) as [[H | H] | [[e [H | [_ H]]] | [H | [[_ [[v H] | [e H]]] _]]]];
      try discriminate.
    + destruct H as [H | H]; vm_compute in H; discriminate.
    + destruct H as [H | H]; vm_compute in H; discriminate.
    + destruct H as [H | []]. discriminate.
Defined.

Lemma checkEnv_name (env : Env) (r : CheckResult) :
  outcome (checkEnv env) = Ret r -> name r = "env".
Proof.
  rewrite checkEnv_eq. simpl. intros [= <-]. destruct (missing_vars env); reflexivity.
Qed.

Lemma checkSupabase_name (env : Env) (sb : Supabase) (r : CheckResult) :
  outcome (checkSupabase env sb) = Ret r -> name r = "supabase".
Proof.
  destruct (checkSupabase_paths env sb)
    as [(_ & ->) | (_ & _ & [(_ & _ & ->) | [(v & _ & _ & _ & _ & ->) | (err & log & _ & ->)]])];
    simpl; intros H; try discriminate; injection H as <-; reflexivity.
Qed.

Lemma checkEnv_configured (env : Env) :
  configured env -> checkEnv env = ([], Ret env_ok_result).
Proof.
  intros Hc. rewrite checkEnv_eq.
  rewrite (proj2 (missing_vars_nil env) Hc). reflexivity.
Qed.

Lemma checkEnv_unconfigured (env : Env) :
  unset env "SUPABASE_URL" \/ unset env "SUPABASE_SERVICE_ROLE_KEY" ->
  checkEnv env = ([], Ret (env_missing_result (missing_vars env))).
Proof.
  intros Hn. rewrite checkEnv_eq.
  destruct (missing_vars env) as [|k ks] eqn:Hm; [| reflexivity].
  apply missing_vars_nil in Hm. destruct Hm as [Hu Hk]. destruct Hn; contradiction.
Qed.

Lemma report_eta (rep : ReadinessReport) (b : bool) (cs : list CheckResult) :
  ready rep = b -> checks rep = cs -> rep = {| ready := b; checks := cs |}.
Proof. destruct rep; simpl; intros -> ->; reflexivity. Qed.

(** X12. In a readiness report the name "unknown" only ever marks a
    timeout. Entry 0 is always named "env"; entry 1 is either the value
    [checkSupabase] returned, named "supabase", or the timeout result; so
    every entry named "unknown" is
    [{ name: "unknown", status: DEGRADED, error: "timeout" }] and the
    "failed" fallback of [mapResult] never shows in a report. *)
Theorem readiness_unknown_is_timeout :
  forall (env : Env) (sb : Supabase) (schedule : list Event) (rep : ReadinessReport),
    readiness env sb schedule = Ret rep ->
    exists r0 r1,
      checks rep = [r0; r1]
      /\ name r0 = "env"
      /\ ((name r1 = "supabase" /\ outcome (checkSupabase env sb) = Ret r1)
          \/ r1 = {| name := "unknown"; status := DEGRADED;
                     error := Some (JsString "timeout") |})
      /\ forall c, In c (checks rep) -> name c = "unknown" ->
                   c = {| name := "unknown"; status := DEGRADED;
                          error := Some (JsString "timeout") |}.
Proof.
  intros env sb schedule rep Hrun.
  destruct (readiness_entries env sb schedule rep Hrun)
    as (r0 & r1 & Hchecks & Hr0 & Hr1 & _).
  pose proof (checkEnv_name env r0 Hr0) as Hn0.
  exists r0, r1. split; [exact Hchecks | split; [exact Hn0 | split]].
  - destruct Hr1 as [Hr1 | ->]; [left | right; reflexivity].
    split; [apply (checkSupabase_name env sb r1 Hr1) | exact Hr1].
  - intros c Hin Hname. rewrite Hchecks in Hin.
    destruct Hin as [<- | [<- | []]].
    + rewrite Hn0 in Hname. discriminate.
    + destruct Hr1 as [Hr1 | ->]; [| reflexivity].
      rewrite (checkSupabase_name env sb r1 Hr1) in Hname. discriminate.
Qed.

Lemma readiness_unknown_is_timeout_witness :
  exists r0 r1,
    [env_ok_result; timeout_result] = [r0; r1]
    /\ name r0 = "env"
    /\ ((name r1 = "supabase"
         /\ outcome (checkSupabase configured_env refusing_service) = Ret r1)
        \/ r1 = {| name := "unknown"; status := DEGRADED;
                   error := Some (JsString "timeout") |})
    /\ forall c, In c [env_ok_result; timeout_result] -> name c = "unknown" ->
                 c = {| name := "unknown"; status := DEGRADED;
                        error := Some (JsString "timeout") |}.
Proof.
  apply (readiness_unknown_is_timeout configured_env refusing_service [Deadline 1]
           {| ready := false; checks := [env_ok_result; timeout_result] |}).
  vm_compute; reflexivity.
Defined.

(** X13. With SUPABASE_URL or SUPABASE_SERVICE_ROLE_KEY missing,
    [readiness] returns at once, before any timer or answer (under every
    schedule, the empty one included), whatever the service would do: the
    report is [ready: false] with the "Missing env vars" entry of [checkEnv]
    and the "Supabase env not configured" entry of [checkSupabase]. *)
Theorem readiness_unconfigured :
  forall (env : Env) (sb : Supabase) (schedule : list Event),
    unset env "SUPABASE_URL" \/ unset env "SUPABASE_SERVICE_ROLE_KEY" ->
    readiness env sb schedule
    = Ret {| ready := false;
             checks := [ {| name := "env";
                            status := DEGRADED;
                            error := Some (JsString ("Missing env vars: "
                                                     ++ join ", " (missing_vars env))) |};
                         {| name := "supabase";
                            status := DEGRADED;
                            error := Some (JsString "Supabase env not configured") |} ] |}.
Proof.
  intros env sb schedule Hn.
  pose proof (checkSupabase_not_configured env sb Hn) as Hsb.
  destruct (proj2 (readiness_returns_cases env sb schedule)) as [rep Hrun].
  { left. rewrite Hsb. eexists; reflexivity. }
  rewrite Hrun. f_equal.
  destruct (readiness_entries env sb schedule rep Hrun)
    as (r0 & r1 & Hchecks & Hr0 & _ & Hnow).
  rewrite (checkEnv_unconfigured env Hn) in Hr0. simpl in Hr0. injection Hr0 as <-.
  assert (Hr1 : r1 = supabase_not_configured) by (apply Hnow; rewrite Hsb; reflexivity).
  subst r1.
  apply report_eta; [| exact Hchecks].
  rewrite (readiness_ready env sb schedule rep Hrun), Hchecks. reflexivity.
Qed.

Lemma readiness_unconfigured_witness :
  readiness (delete "SUPABASE_URL" configured_env) healthy_service []
  = Ret {| ready := false;
           checks := [ {| name := "env";
                          status := DEGRADED;
                          error := Some (JsString ("Missing env vars: "
                            ++ join ", " (missing_vars (delete "SUPABASE_URL" configured_env)))) |};
                       {| name := "supabase";
                          status := DEGRADED;
                          error := Some (JsString "Supabase env not configured") |} ] |}.
Proof.
  apply (readiness_unconfigured (delete "SUPABASE_URL" configured_env) healthy_service []).
  left. left. vm_compute; reflexivity.
Defined.

(** X14. When both variables are set and the ping never answers,
    [readiness] is pending until the deadline of the supabase slot and then
    returns [ready: false] with the OK entry of [checkEnv] and the timeout
    entry: the hanging check cannot hold the report back past its timer. *)
Theorem readiness_hanging_probe :
  forall (env : Env) (sb : Supabase) (schedule : list Event),
    configured env -> probe_hangs sb (env_url env) (env_key env) ->
    (In (Deadline 1) schedule ->
     readiness env sb schedule
     = Ret {| ready := false;
              checks := [ {| name := "env"; status := OK; error := None |};
                          {| name := "unknown"; status := DEGRADED;
                             error := Some (JsString "timeout") |} ] |})
    /\ (~ In (Deadline 1) schedule -> readiness env sb schedule = Hang).
Proof.
  intros env sb schedule Hc Hh.
  assert (Hout : outcome (checkSupabase env sb) = Hang)
    by (apply checkSupabase_hang_cases; split; assumption).
  assert (Hp : promise_of (checkSupabase env sb) = NeverSettles)
    by (unfold promise_of; rewrite Hout; reflexivity).
  split.
  - intros Hd.
    destruct (proj2 (readiness_returns_cases env sb schedule)) as [rep Hrun].
    { right; left; exact Hd. }
    rewrite Hrun. f_equal.
    destruct (readiness_entries env sb schedule rep Hrun)
      as (r0 & r1 & Hchecks & Hr0 & Hr1 & _).
    rewrite (checkEnv_configured env Hc) in Hr0. simpl in Hr0. injection Hr0 as <-.
    destruct Hr1 as [Hr1 | ->]; [rewrite Hout in Hr1; discriminate |].
    apply report_eta; [| exact Hchecks].
    rewrite (readiness_ready env sb schedule rep Hrun), Hchecks. reflexivity.
  - intros Hnd. apply readiness_with_Hang_iff. intros Hrep.
    apply readiness_returns_cases in Hrep. rewrite Hp in Hrep.
    destruct Hrep as [[o H] | [H | [[o H] _]]]; try discriminate. contradiction.
Qed.

Lemma readiness_hanging_probe_witness :
  readiness configured_env hanging_service [Settles 1; Deadline 1]
  = Ret {| ready := false;
           checks := [ {| name := "env"; status := OK; error := None |};
                       {| name := "unknown"; status := DEGRADED;
                          error := Some (JsString "timeout") |} ] |}
  /\ readiness configured_env hanging_service [Settles 1; Deadline 0] = Hang.
Proof.
  destruct (readiness_hanging_probe configured_env hanging_service [Settles 1; Deadline 1])
    as [Hret _].
  { split; intros [H | H]; vm_compute in H; discriminate. }
  { split; reflexivity. }
  destruct (readiness_hanging_probe configured_env hanging_service [Settles 1; Deadline 0])
    as [_ Hhang].
  { split; intros [H | H]; vm_compute in H; discriminate. }
  { split; reflexivity. }
  split.
  - apply Hret. right; left; reflexivity.
  - apply Hhang. intros [H | [H | []]]; discriminate.
Defined.

(** Unless the timer of the supabase slot fires first, entry 1 of the
    report is the value [checkSupabase] returned. *)
Lemma readiness_supabase_entry (env : Env) (sb : Supabase) (schedule : list Event)
    (rep : ReadinessReport) :
  readiness env sb schedule = Ret rep ->
  ~ timer_fires_first (readiness_promises env sb) 1 schedule ->
  exists r1, outcome (checkSupabase env sb) = Ret r1 /\ checks rep !! 1 = Some r1.
Proof.
  intros Hrun Hnot.
  destruct (readiness_with_lookup _ _ _ _ 1 _ Hrun eq_refl) as [[c Hc] Hlook].
  pose proof (slot_events_coherent (readiness_promises env sb) 1
                (promise_of (checkSupabase env sb)) schedule eq_refl) as Hcoh.
  set (p := promise_of (checkSupabase env sb)) in *.
  set (evs := slot_events (readiness_promises env sb) 1 schedule) in *.
  assert (Hval : forall o, p = SettledNow o \/ p = SettlesLater o ->
                 exists r, outcome (checkSupabase env sb) = Ret r /\ o = Fulfilled r).
  { intros o Ho. destruct (promise_of_settles _ _ Ho) as [H | (e & He & _)]; [exact H |].
    exfalso. apply (checkSupabase_no_throw env sb e He). }
  assert (Hset : exists o, (p = SettledNow o \/ p = SettlesLater o)
                           /\ settled (slot_run p TIMEOUT_MS evs) = Some o).
  { destruct p as [o | o |] eqn:Hp.
    - exists o. split; [left; reflexivity | apply slot_run_settled_now].
    - destruct evs as [|ev rest] eqn:Hevs.
      + rewrite Hc in Hlook. discriminate.
      + inversion Hcoh as [|? ? Hev _]; subst.
        destruct Hev as [-> | (o' & -> & Ho')].
        * exfalso. apply Hnot.
          split; [right; exists o; simpl; f_equal; exact Hp | exists rest; exact Hevs].
        * injection Ho' as <-. exists o. split; [right; reflexivity |].
          apply slot_run_check_first.
    - destruct evs as [|ev rest] eqn:Hevs.
      + rewrite Hc in Hlook. discriminate.
      + inversion Hcoh as [|? ? Hev _]; subst.
        destruct Hev as [-> | (o' & _ & Ho')]; [| discriminate].
        exfalso. apply Hnot.
        split; [left; simpl; f_equal; exact Hp | exists rest; exact Hevs]. }
  destruct Hset as (o & Ho & Hs).
  destruct (Hval o Ho) as (r & Hr & ->).
  exists r. split; [exact Hr |]. rewrite Hlook, Hs. reflexivity.
Qed.

Lemma readiness_timer_first_entry (env : Env) (sb : Supabase) (schedule : list Event)
    (rep : ReadinessReport) :
  readiness env sb schedule = Ret rep ->
  timer_fires_first (readiness_promises env sb) 1 schedule ->
  checks rep !! 1 = Some timeout_result.
Proof.
  intros Hrun Hfirst.
  destruct (timer_first_slot _ TIMEOUT_MS schedule 1 Hfirst) as (p & Hp & Hs).
  destruct (readiness_with_lookup _ _ _ _ 1 p Hrun Hp) as [_ ->].
  rewrite Hs. reflexivity.
Qed.

(** X15. The report says [ready: true] in one situation only: both
    variables are set, the client is built and the ping answers without an
    error, and the answer reaches the supabase slot before its timer fires.
    The report is then exactly the two OK entries. *)
Theorem readiness_ready_iff :
  forall (env : Env) (sb : Supabase) (schedule : list Event) (rep : ReadinessReport),
    readiness env sb schedule = Ret rep ->
    (ready rep = true
     <-> configured env
         /\ probe_healthy sb (env_url env) (env_key env)
         /\ ~ timer_fires_first (readiness_promises env sb) 1 schedule)
    /\ (ready rep = true ->
        checks rep = [ {| name := "env"; status := OK; error := None |};
                       {| name := "supabase"; status := OK; error := None |} ]).
Proof.
  intros env sb schedule rep Hrun.
  destruct (readiness_entries env sb schedule rep Hrun)
    as (r0 & r1 & Hchecks & Hr0 & _ & _).
  pose proof (readiness_ready env sb schedule rep Hrun) as Hready.
  rewrite Hchecks in Hready. simpl in Hready.
  assert (Hfwd : ready rep = true ->
                 status r0 = OK /\ status r1 = OK
                 /\ ~ timer_fires_first (readiness_promises env sb) 1 schedule).
  { intros Ht. rewrite Ht in Hready.
    destruct (status r0) eqn:H0; [| discriminate].
    destruct (status r1) eqn:H1; [| discriminate].
    split; [reflexivity | split; [reflexivity |]].
    intros Hfirst.
    pose proof (readiness_timer_first_entry env sb schedule rep Hrun Hfirst) as Ht1.
    rewrite Hchecks in Ht1. simpl in Ht1. injection Ht1 as ->. discriminate. }
  split; [split |].
  - intros Ht. destruct (Hfwd Ht) as (_ & H1 & Hnot).
    destruct (readiness_supabase_entry env sb schedule rep Hrun Hnot) as (r & Hr & Hl).
    rewrite Hchecks in Hl. simpl in Hl. injection Hl as <-.
    destruct (proj1 (proj1 (checkSupabase_ok_cases env sb))) as [Hc Hh];
      [exists r1; split; assumption |].
    split; [exact Hc | split; [exact Hh | exact Hnot]].
  - intros (Hc & Hh & Hnot).
    destruct (readiness_supabase_entry env sb schedule rep Hrun Hnot) as (r & Hr & Hl).
    rewrite Hchecks in Hl. simpl in Hl. injection Hl as <-.
    destruct (proj2 (proj1 (checkSupabase_ok_cases env sb)) (conj Hc Hh))
      as (r' & Hr' & Hs').
    assert (r' = r1) by congruence. subst r'.
    rewrite (checkEnv_configured env Hc) in Hr0. simpl in Hr0. injection Hr0 as <-.
    rewrite Hready. simpl. rewrite Hs'. reflexivity.
  - intros Ht. destruct (Hfwd Ht) as (H0 & H1 & Hnot).
    destruct (readiness_supabase_entry env sb schedule rep Hrun Hnot) as (r & Hr & Hl).
    rewrite Hchecks in Hl. simpl in Hl. injection Hl as <-.
    rewrite (proj2 (checkSupabase_ok_cases env sb) r1 Hr H1) in Hchecks.
    rewrite checkEnv_eq in Hr0. simpl in Hr0. injection Hr0 as Hr0.
    destruct (missing_vars env); subst r0; [exact Hchecks | discriminate].
Qed.

Lemma readiness_ready_iff_witness :
  ready {| ready := true; checks := [env_ok_result; supabase_ok_result] |} = true
  /\ checks {| ready := true; checks := [env_ok_result; supabase_ok_result] |}
     = [ {| name := "env"; status := OK; error := None |};
         {| name := "supabase"; status := OK; error := None |} ].
Proof.
  destruct (readiness_ready_iff configured_env healthy_service [Settles 1; Deadline 1]
              {| ready := true; checks := [env_ok_result; supabase_ok_result] |})
    as [[_ Hready] Hchecks].
  { vm_compute; reflexivity. }
  assert (Ht : ready {| ready := true; checks := [env_ok_result; supabase_ok_result] |}
               = true).
  { apply Hready. split; [| split].
    - split; intros [H | H]; vm_compute in H; discriminate.
    - split; [reflexivity |]. eexists. split; [reflexivity |]. split; reflexivity.
    - intros [_ [rest H]]. vm_compute in H. discriminate. }
  split; [exact Ht | apply Hchecks; exact Ht].
Defined.

(** X16. A failing dependency keeps its name: when the check fails
    after its guard (a throwing [createClient], a rejected request, a
    response with an error) and its answer reaches the slot before the timer
    fires, entry 1 of the report is the DEGRADED result named "supabase"
    built from the value caught, and [ready] is false. Only a timeout is
    reported as "unknown". *)
Theorem readiness_reports_probe_failure :
  forall (env : Env) (sb : Supabase) (schedule : list Event) (rep : ReadinessReport)
         (err : JsValue),
    configured env ->
    supabase_failure sb (env_url env) (env_key env) err ->
    ~ timer_fires_first (readiness_promises env sb) 1 schedule ->
    readiness env sb schedule = Ret rep ->
    checks rep !! 1
    = Some {| name := "supabase";
              status := DEGRADED;
              error := Some (coalesce (opt_get err "message")
                                      (JsString "Supabase unreachable")) |}
    /\ ready rep = false.
Proof.
  intros env sb schedule rep err [Hu Hk] Hf Hnot Hrun.
  destruct (readiness_supabase_entry env sb schedule rep Hrun Hnot) as (r & Hr & Hl).
  pose proof (checkSupabase_failure env sb err Hu Hk Hf) as Hdeg.
  assert (r = supabase_degraded err) by congruence. subst r.
  split; [exact Hl |].
  rewrite (readiness_ready env sb schedule rep Hrun).
  apply (every_false_at _ _ 1 (supabase_degraded err) Hl). reflexivity.
Qed.

Lemma readiness_reports_probe_failure_witness :
  checks {| ready := false;
            checks := [env_ok_result;
                       supabase_degraded (new_Error "connection refused")] |} !! 1
  = Some {| name := "supabase";
            status := DEGRADED;
            error := Some (coalesce (opt_get (new_Error "connection refused") "message")
                                    (JsString "Supabase unreachable")) |}
  /\ ready {| ready := false;
              checks := [env_ok_result;
                         supabase_degraded (new_Error "connection refused")] |} = false.
Proof.
  apply (readiness_reports_probe_failure configured_env refusing_service
           [Settles 1; Deadline 1] _ (new_Error "connection refused")).
  - split; intros [H | H]; vm_compute in H; discriminate.
  - right. split; [reflexivity | right; left; reflexivity].
  - intros [_ [rest H]]. vm_compute in H. discriminate.
  - vm_compute; reflexivity.
Defined.

(** ** Liveness at the edges *)

(** X17. [liveness] counts whole seconds: reading the clock [k] seconds
    later adds exactly [k] to the uptime, while the milliseconds inside the
    current second do not show; the version of the response is the value of
    APP_VERSION, or absent when it is not set. *)
Theorem liveness_counts_whole_seconds :
  forall (startedAt now k : Z) (version : option string),
    hr_uptime (liveness startedAt (now + 1000 * k) version)
    = (hr_uptime (liveness startedAt now version) + k)%Z
    /\ (forall d, (0 <= d)%Z ->
                  (d < 1000 - (now - startedAt) mod 1000)%Z ->
                  hr_uptime (liveness startedAt (now + d) version)
                  = hr_uptime (liveness startedAt now version))
    /\ hr_version (liveness startedAt now version) = version.
Proof.
  intros startedAt now k version. unfold liveness; simpl.
  split; [| split; [| reflexivity]].
  - replace (now + 1000 * k - startedAt)%Z with ((now - startedAt) + k * 1000)%Z by lia.
    apply Z.div_add. lia.
  - intros d Hd0 Hd.
    pose proof (Z.div_mod (now - startedAt) 1000 ltac:(lia)) as Hdm.
    pose proof (Z.mod_pos_bound (now - startedAt) 1000 ltac:(lia)) as Hb.
    symmetry. apply (Z.div_unique _ _ _ ((now - startedAt) mod 1000 + d)); lia.
Qed.

Lemma liveness_counts_whole_seconds_witness :
  hr_uptime (liveness 1000 (3500 + 499) None) = hr_uptime (liveness 1000 3500 None).
Proof.
  apply (liveness_counts_whole_seconds 1000 3500 0 None); [lia | reflexivity].
Defined.

(** X18. [liveness] does not guard against a clock that was set back:
    the uptime is negative exactly when the clock reads earlier than at
    construction (one millisecond earlier already gives -1, since the
    quotient is floored, not truncated), and it is 0 exactly during the
    first second. *)
Theorem liveness_clock_set_back :
  forall (startedAt now : Z) (version : option string),
    ((hr_uptime (liveness startedAt now version) < 0)%Z <-> (now < startedAt)%Z)
    /\ (hr_uptime (liveness startedAt now version) = 0%Z
        <-> (startedAt <= now < startedAt + 1000)%Z)
    /\ hr_uptime (liveness startedAt (startedAt - 1) version) = (-1)%Z.
Proof.
  intros startedAt now version. unfold liveness; simpl.
  pose proof (Z.div_mod (now - startedAt) 1000 ltac:(lia)) as Hdm.
  pose proof (Z.mod_pos_bound (now - startedAt) 1000 ltac:(lia)) as Hb.
  split; [| split].
  - split; intros H; [lia |].
    apply Z.div_lt_upper_bound; lia.
  - split; intros H.
    + rewrite H in Hdm. lia.
    + apply Z.div_small. lia.
  - replace (startedAt - 1 - startedAt)%Z with (-1)%Z by lia. reflexivity.
Qed.

